(** * form-app: the form state store, the validation utility, the dynamic form
      composer and the submission endpoint

    A shallow embedding of
      - src/lib/utils.ts      (generateSessionId, validateField, storage,
                               formatPhoneNumber, hexToRgb, getContrastColor,
                               handleApiError, getOrgCodeFromUrl, buildFormUrl),
      - src/lib/stores.ts     (formState, formConfig, isValid, formActions,
                               analyticsActions),
      - src/lib/components/DynamicForm.svelte (handleFieldChange,
                               handleFieldError, handleSubmit, handleReset,
                               getFieldLayout),
      - src/routes/api/submit/+server.ts      (POST, GET),
      - src/lib/types.ts      (the zod schemas and the FormState interface),
    followed by the properties of the specification that concern them.

    JavaScript is modelled as it runs: a lookup on a plain object reaches
    [Object.prototype], a call of a member that is not there throws, and so
    does the construction of a malformed regular expression.  The schemas
    are read under Zod 4.3.6, the version the project declares. *)

From Stdlib Require Import ZArith NArith List String Ascii Bool Lia Permutation.
From Stdlib Require Import DecimalString DecimalPos DecimalN DecimalZ.
From stdpp Require Import base option list gmap.

Set Warnings "-register-all".
Local Open Scope Z_scope.

(** ** JavaScript strings and values *)

(** A JavaScript string is a sequence of UTF-16 code units. *)
Definition code_unit := N.
Abbreviation jsstring := (list N).

(** A string literal of the source (all of them are ASCII). *)
Definition lit (s : string) : jsstring :=
  map N_of_ascii (list_ascii_of_string s).

(** [String(n)] for an integer [n]. *)
Definition Number_toString (z : Z) : jsstring :=
  lit (NilZero.string_of_int (Z.to_int z)).

(** [String(n)] for a non-negative integer such as [Date.now()]. *)
Definition Date_toString (n : N) : jsstring :=
  lit (NilZero.string_of_uint (N.to_uint n)).

(** WhiteSpace and LineTerminator code units: what [String.prototype.trim]
    strips and what the class [\s] of a regular expression accepts. *)
Definition is_whitespace (c : code_unit) : bool :=
  ((9 <=? c) && (c <=? 13) || (c =? 32) || (c =? 160) || (c =? 5760)
   || (8192 <=? c) && (c <=? 8202) || (c =? 8232) || (c =? 8233)
   || (c =? 8239) || (c =? 8287) || (c =? 12288) || (c =? 65279))%N.

Definition is_digit (c : code_unit) : bool := ((48 <=? c) && (c <=? 57))%N.

Fixpoint trimStart (s : jsstring) : jsstring :=
  match s with
  | c :: s' => if is_whitespace c then trimStart s' else s
  | [] => []
  end.

Definition trimEnd (s : jsstring) : jsstring := rev (trimStart (rev s)).

(** [s.trim()] *)
Definition trim (s : jsstring) : jsstring := trimEnd (trimStart s).

(** The values a form holds: the spec's [string | boolean], and [undefined]
    for a key that is absent from the record. *)
Inductive value :=
| VUndefined
| VString (s : jsstring)
| VBoolean (b : bool).

(** The records of the program ([data], [errors], [formData]) are plain
    objects: object literals, spreads and results of [JSON.parse].  Besides
    the members of its own, a plain object answers to the names of
    [Object.prototype]. *)
Definition Object_prototype : list jsstring :=
  map lit ["constructor"; "__defineGetter__"; "__defineSetter__";
           "hasOwnProperty"; "__lookupGetter__"; "__lookupSetter__";
           "isPrototypeOf"; "propertyIsEnumerable"; "toString"; "valueOf";
           "__proto__"; "toLocaleString"]%string.

(** What an expression of type [any] holds in this program: a value of the
    form, or what a lookup finds on [Object.prototype] under [member]: a
    built-in function, or under [__proto__] the prototype object itself. *)
Inductive any :=
| Own (v : value)
| Inherited (member : jsstring).

Coercion Own : value >-> any.

(** [!!v]: functions and objects are truthy. *)
Definition truthy (v : any) : bool :=
  match v with
  | Own VUndefined => false
  | Own (VString s) => negb (Nat.eqb (length s) 0)
  | Own (VBoolean b) => b
  | Inherited _ => true
  end.

(** The text of an inherited member: [Object.prototype] prints as
    [[object Object]], a built-in function as its source text, given here as
    V8 prints it (other engines differ in the white space between the
    braces); [constructor] is the function [Object]. *)
Definition Inherited_toString (member : jsstring) : jsstring :=
  if decide (member = lit "__proto__") then lit "[object Object]"
  else
    lit "function "
    ++ (if decide (member = lit "constructor") then lit "Object" else member)
    ++ lit "() { [native code] }".

(** [String(v)]; on strings, booleans, functions and objects it is also
    [v.toString()]. *)
Definition ToString (v : any) : jsstring :=
  match v with
  | Own VUndefined => lit "undefined"
  | Own (VString s) => s
  | Own (VBoolean true) => lit "true"
  | Own (VBoolean false) => lit "false"
  | Inherited member => Inherited_toString member
  end.

(** [rec[key]] on a record of values: the member of its own, else the one
    inherited from [Object.prototype], else [undefined]. *)
Definition get_value (rec : gmap jsstring value) (key : jsstring) : any :=
  match rec !! key with
  | Some v => Own v
  | None =>
      if decide (key ∈ Object_prototype) then Inherited key
      else Own VUndefined
  end.

(** [rec[key] = v] for a text [v], on a record that began as [{}] and took
    its members by such assignments.  Under [__proto__] the assignment
    reaches the setter of [Object.prototype], which ignores a value that is
    not an object: the record gets no member. *)
Definition assign {A} (key : jsstring) (v : A) (rec : gmap jsstring A)
    : gmap jsstring A :=
  if decide (key = lit "__proto__") then rec else <[key := v]> rec.

(** ** Errors

    What a [throw] carries, and how a call that computes a value ends.  The
    errors the engine raises are kept by their cause, not by the wording of
    their message, which differs between engines: the identifier that is
    not defined, the expression that is called without being a function or
    read through while [undefined], the pattern that is malformed. *)
Inductive Error :=
| ReferenceError (identifier : string)
| TypeError (expression : string)
| SyntaxError (pattern : jsstring)
| PlainError (message : jsstring).

Inductive Outcome (A : Type) :=
| Normal (a : A)
| Abrupt (e : Error).

Arguments Normal {A} a.
Arguments Abrupt {A} e.

(** A loop [for (const x of l) { acc = f(acc, x) }] whose body may throw. *)
Fixpoint Outcome_fold {A B} (f : B -> A -> Outcome B) (l : list A) (b : B)
    : Outcome B :=
  match l with
  | [] => Normal b
  | x :: l' =>
      match f b x with
      | Normal b' => Outcome_fold f l' b'
      | Abrupt e => Abrupt e
      end
  end.

(** ** Regular expressions

    The two regular-expression literals of the source are anchored at both
    ends and carry no flag, so [re.test(s)] decides whether the whole of [s]
    belongs to the language of the body.  The body is kept as syntax and
    [RegExp_test] runs it by derivatives. *)
Inductive regex :=
| RNone
| REps
| RClass (p : code_unit -> bool)
| RCat (r1 r2 : regex)
| RAlt (r1 r2 : regex)
| RStar (r : regex).

(** [r+] *)
Definition RPlus (r : regex) : regex := RCat r (RStar r).

Fixpoint nullable (r : regex) : bool :=
  match r with
  | RNone => false
  | REps => true
  | RClass _ => false
  | RCat r1 r2 => nullable r1 && nullable r2
  | RAlt r1 r2 => nullable r1 || nullable r2
  | RStar _ => true
  end.

Fixpoint deriv (c : code_unit) (r : regex) : regex :=
  match r with
  | RNone => RNone
  | REps => RNone
  | RClass p => if p c then REps else RNone
  | RCat r1 r2 =>
      if nullable r1 then RAlt (RCat (deriv c r1) r2) (deriv c r2)
      else RCat (deriv c r1) r2
  | RAlt r1 r2 => RAlt (deriv c r1) (deriv c r2)
  | RStar r1 => RCat (deriv c r1) (RStar r1)
  end.

Fixpoint RegExp_test (r : regex) (s : jsstring) : bool :=
  match s with
  | [] => nullable r
  | c :: s' => RegExp_test (deriv c r) s'
  end.

(** The language of a regular expression. *)
Inductive matches : regex -> jsstring -> Prop :=
| M_eps : matches REps []
| M_class p c : p c = true -> matches (RClass p) [c]
| M_cat r1 r2 s1 s2 :
    matches r1 s1 -> matches r2 s2 -> matches (RCat r1 r2) (s1 ++ s2)
| M_alt_l r1 r2 s : matches r1 s -> matches (RAlt r1 r2) s
| M_alt_r r1 r2 s : matches r2 s -> matches (RAlt r1 r2) s
| M_star_nil r : matches (RStar r) []
| M_star_app r s1 s2 :
    matches r s1 -> matches (RStar r) s2 -> matches (RStar r) (s1 ++ s2).

(** [[^\s@]] *)
Definition not_space_or_at (c : code_unit) : bool :=
  negb (is_whitespace c || (c =? 64)%N).

(** [/^[^\s@]+@[^\s@]+\.[^\s@]+$/] *)
Definition emailRegex : regex :=
  RCat (RPlus (RClass not_space_or_at))
    (RCat (RClass (N.eqb 64))
       (RCat (RPlus (RClass not_space_or_at))
          (RCat (RClass (N.eqb 46))
             (RPlus (RClass not_space_or_at))))).

(** [[\d\s\-\+\(\)]] *)
Definition phone_char (c : code_unit) : bool :=
  (is_digit c || is_whitespace c
   || (c =? 45) || (c =? 43) || (c =? 40) || (c =? 41))%N.

(** [/^[\d\s\-\+\(\)]+$/] *)
Definition phoneRegex : regex := RPlus (RClass phone_char).

(** ** The data model (src/lib/types.ts) *)

Inductive FieldType := text | email | phone | textarea | select | checkbox.

(** [validation]: the bounds are character counts and are kept as integers;
    [pattern] is the source text of a regular expression. *)
Record Validation := {
  min : option Z;
  max : option Z;
  pattern : option jsstring
}.

Record FormField := {
  field_id : jsstring;
  name : jsstring;
  label : jsstring;
  type : FieldType;
  required : bool;
  placeholder : option jsstring;
  options : option (list jsstring);
  validation : option Validation
}.

Record Colors := {
  primary : jsstring;
  secondary : jsstring;
  background : jsstring;
  text_color : jsstring
}.

Inductive Spacing := compact | normal | relaxed.

(** [layout]: the composer reads [columns] and [fieldOrder] defensively
    ([layout?.columns || 1], [layout?.fieldOrder || ...]), so each may be
    absent.  The schema bounds [columns] by 1 and 4; it is a count. *)
Record Layout := {
  columns : option nat;
  fieldOrder : option (list jsstring);
  spacing : Spacing
}.

Record Settings := {
  show_progress : bool;
  auto_save : bool;
  confirmation_message : option jsstring;
  redirect_url : option jsstring
}.

Record FormConfig := {
  id : jsstring;
  org_id : jsstring;
  slug : jsstring;
  org_code : jsstring;
  logo_url : option jsstring;
  colors : Colors;
  fields : list FormField;
  layout : option Layout;
  settings : option Settings
}.

(** [Date] values are kept as milliseconds since the epoch. *)
Definition Date := N.

Record FormState := {
  config : option FormConfig;
  data : gmap jsstring value;
  errors : gmap jsstring jsstring;
  isSubmitting : bool;
  isSubmitted : bool;
  sessionId : jsstring;
  lastSaved : option Date
}.

(** [FormSubmissionSchema]: the payload after parsing. *)
Inductive json :=
| JNull
| JBool (b : bool)
| JNumber (n : Z)
| JString (s : jsstring)
| JArray (items : list json)
| JObject (members : list (jsstring * json)).

Record FormSubmission := {
  form_id : jsstring;
  sub_org_code : jsstring;
  sub_data : list (jsstring * json);
  session_id : option jsstring;
  user_agent : option jsstring;
  referrer : option jsstring
}.

(** ** src/lib/utils.ts *)

(** [generateSessionId]: [now] is the reading of [Date.now()], [suffix] the
    text [Math.random().toString(36).substr(2, 9)] of the random draw. *)
Definition generateSessionId (now : N) (suffix : jsstring) : jsstring :=
  lit "session_" ++ Date_toString now ++ lit "_" ++ suffix.

Inductive ValidationResult :=
| Valid
| Invalid (error : jsstring).

Definition result_isValid (r : ValidationResult) : bool :=
  match r with Valid => true | Invalid _ => false end.

(** [!!n] on an optional number: absent and 0 are falsy. *)
Definition number_truthy (n : option Z) : bool :=
  match n with
  | Some z => negb (z =? 0)
  | None => false
  end.

(** [!!s] on an optional string. *)
Definition string_truthy (s : option jsstring) : bool :=
  match s with
  | Some p => truthy (VString p)
  | None => false
  end.

(** [field.validation?.min] and the like. *)
Definition validation_min (field : FormField) : option Z :=
  validation field ≫= min.
Definition validation_max (field : FormField) : option Z :=
  validation field ≫= max.
Definition validation_pattern (field : FormField) : option jsstring :=
  validation field ≫= pattern.

(** [field.required && (!value || value.toString().trim() === '')] *)
Definition required_and_blank (field : FormField) (v : any) : bool :=
  required field
  && (negb (truthy v) || Nat.eqb (length (trim (ToString v))) 0).

Definition required_message (field : FormField) : jsstring :=
  label field ++ lit " is required".
Definition min_message (m : Z) : jsstring :=
  lit "Must be at least " ++ Number_toString m ++ lit " characters".
Definition max_message (m : Z) : jsstring :=
  lit "Must be no more than " ++ Number_toString m ++ lit " characters".

(** [if (c) return { isValid: false, error }; rest] *)
Definition return_if (c : bool) (error : jsstring)
    (rest : Outcome ValidationResult) : Outcome ValidationResult :=
  if c then Normal (Invalid error) else rest.

Section Validation.

(** [new RegExp(pattern)] for a pattern held by the configuration, as the
    engine of the runtime has it: the [test] of the expression, or nothing
    where the pattern is malformed and the constructor throws a
    SyntaxError. *)
Variable RegExp_new : jsstring -> option (jsstring -> bool).

Definition validateField (field : FormField) (v : any)
    : Outcome ValidationResult :=
  return_if (required_and_blank field v) (required_message field)
  (if negb (truthy v) then Normal Valid
   else
     match type field with
     | email =>
         return_if (negb (RegExp_test emailRegex (ToString v)))
           (lit "Please enter a valid email address") (Normal Valid)
     | phone =>
         return_if (negb (RegExp_test phoneRegex (ToString v)))
           (lit "Please enter a valid phone number") (Normal Valid)
     | text | textarea =>
         let strValue := ToString v in
         let vmin := default 0 (validation_min field) in
         let vmax := default 0 (validation_max field) in
         return_if (number_truthy (validation_min field)
                    && (Z.of_nat (length strValue) <? vmin))
           (min_message vmin)
         (return_if (number_truthy (validation_max field)
                     && (vmax <? Z.of_nat (length strValue)))
            (max_message vmax)
         (if string_truthy (validation_pattern field) then
            let source := default [] (validation_pattern field) in
            match RegExp_new source with
            | None => Abrupt (SyntaxError source)
            | Some regex =>
                return_if (negb (regex strValue)) (lit "Invalid format")
                  (Normal Valid)
            end
          else Normal Valid))
     | select | checkbox => Normal Valid
     end).

End Validation.

(** ** Local storage (the [storage] helpers of src/lib/utils.ts) *)

(** What [localStorage] holds under a key: the serialisation of a record of
    values, which is what the module writes, or text that [JSON.parse]
    rejects. *)
Inductive StorageItem :=
| Serialized (d : gmap jsstring value)
| Unparsable (raw : jsstring).

(** Where the module runs: on the server there is no [window] and [browser]
    is false; in the browser there is a [localStorage]. *)
Inductive Runtime :=
| Server
| Browser (localStorage : gmap jsstring StorageItem).

Definition browser (rt : Runtime) : bool :=
  match rt with Server => false | Browser _ => true end.

(** [JSON.parse(JSON.stringify(d))]: members whose value is [undefined] are
    left out. *)
Definition JSON_stringify (d : gmap jsstring value) : gmap jsstring value :=
  omap (fun v => match v with VUndefined => None | _ => Some v end) d.

Definition storage_get (key : jsstring) (rt : Runtime)
    : option (gmap jsstring value) :=
  match rt with
  | Server => None
  | Browser ls =>
      match ls !! key with
      | Some (Serialized d) => Some d
      | Some (Unparsable _) => None
      | None => None
      end
  end.

Definition storage_set (key : jsstring) (d : gmap jsstring value)
    (rt : Runtime) : Runtime :=
  match rt with
  | Server => Server
  | Browser ls => Browser (<[key := Serialized (JSON_stringify d)]> ls)
  end.

Definition storage_remove (key : jsstring) (rt : Runtime) : Runtime :=
  match rt with
  | Server => Server
  | Browser ls => Browser (delete key ls)
  end.

(** [localStorage.getItem(key)], [null] where there is no storage. *)
Definition persisted (key : jsstring) (rt : Runtime) : option StorageItem :=
  match rt with
  | Server => None
  | Browser ls => ls !! key
  end.

(** [`form_${id}_data`] *)
Definition storage_key (config_id : jsstring) : jsstring :=
  lit "form_" ++ config_id ++ lit "_data".

(** ** The form state store (src/lib/stores.ts) *)

(** The writable stores of the module and the runtime they live in.
    [formState] and [formConfig] are separate stores. *)
Record Stores := {
  formState : FormState;
  formConfig : option FormConfig;
  autoSaveEnabled : bool;
  lastAutoSave : option Date;
  runtime : Runtime
}.

(** How a call that computes nothing ends. *)
Inductive Completion :=
| Returns
| Throws (e : Error).

(** [formState.update(f)] *)
Definition formState_update (f : FormState -> FormState) (w : Stores)
    : Stores :=
  {| formState := f (formState w);
     formConfig := formConfig w;
     autoSaveEnabled := autoSaveEnabled w;
     lastAutoSave := lastAutoSave w;
     runtime := runtime w |}.

Definition set_runtime (rt : Runtime) (w : Stores) : Stores :=
  {| formState := formState w;
     formConfig := formConfig w;
     autoSaveEnabled := autoSaveEnabled w;
     lastAutoSave := lastAutoSave w;
     runtime := rt |}.

(** [config?.settings?.auto_save] *)
Definition auto_save_on (c : option FormConfig) : bool :=
  match c ≫= settings with
  | Some s => auto_save s
  | None => false
  end.

Module formActions.

(** [initialize(config)]; [now] and [suffix] feed [generateSessionId]. *)
Definition initialize (now : N) (suffix : jsstring) (cfg : FormConfig)
    (w : Stores) : Stores :=
  let w1 :=
    formState_update (fun state =>
      {| config := Some cfg;
         data := ∅;
         errors := ∅;
         isSubmitting := isSubmitting state;
         isSubmitted := false;
         sessionId := generateSessionId now suffix;
         lastSaved := lastSaved state |}) w in
  let w2 :=
    {| formState := formState w1;
       formConfig := Some cfg;
       autoSaveEnabled := autoSaveEnabled w1;
       lastAutoSave := lastAutoSave w1;
       runtime := runtime w1 |} in
  if browser (runtime w2) && auto_save_on (Some cfg) then
    match storage_get (storage_key (id cfg)) (runtime w2) with
    | Some savedData =>
        formState_update (fun state =>
          {| config := config state;
             data := savedData;
             errors := errors state;
             isSubmitting := isSubmitting state;
             isSubmitted := isSubmitted state;
             sessionId := sessionId state;
             lastSaved := lastSaved state |}) w2
    | None => w2
    end
  else w2.

(** [updateField(fieldName, value)]; [now] is the reading of [new Date()].
    The guard tests the store object [autoSaveEnabled], which is always
    truthy, not its content. *)
Definition updateField (now : Date) (fieldName : jsstring) (v : value)
    (w : Stores) : Stores :=
  let state := formState w in
  let newData := <[fieldName := v]> (data state) in
  let newErrors := delete fieldName (errors state) in
  let autosave := browser (runtime w) && auto_save_on (config state) && true in
  let state' :=
    {| config := config state;
       data := newData;
       errors := newErrors;
       isSubmitting := isSubmitting state;
       isSubmitted := isSubmitted state;
       sessionId := sessionId state;
       lastSaved := lastSaved state |} in
  match config state with
  | Some cfg =>
      if autosave then
        {| formState := state';
           formConfig := formConfig w;
           autoSaveEnabled := autoSaveEnabled w;
           lastAutoSave := Some now;
           runtime := storage_set (storage_key (id cfg)) newData (runtime w) |}
      else formState_update (fun _ => state') w
  | None => formState_update (fun _ => state') w
  end.

Definition with_errors (errs : gmap jsstring jsstring) (state : FormState)
    : FormState :=
  {| config := config state;
     data := data state;
     errors := errs;
     isSubmitting := isSubmitting state;
     isSubmitted := isSubmitted state;
     sessionId := sessionId state;
     lastSaved := lastSaved state |}.

(** [setFieldError(fieldName, error)] *)
Definition setFieldError (fieldName error : jsstring) (w : Stores) : Stores :=
  formState_update
    (fun state => with_errors (<[fieldName := error]> (errors state)) state) w.

(** [clearFieldError(fieldName)] *)
Definition clearFieldError (fieldName : jsstring) (w : Stores) : Stores :=
  formState_update
    (fun state => with_errors (delete fieldName (errors state)) state) w.

(** [clearErrors()] *)
Definition clearErrors (w : Stores) : Stores :=
  formState_update (fun state => with_errors ∅ state) w.

(** [setSubmitting(isSubmitting)] *)
Definition setSubmitting (b : bool) (w : Stores) : Stores :=
  formState_update (fun state =>
    {| config := config state;
       data := data state;
       errors := errors state;
       isSubmitting := b;
       isSubmitted := isSubmitted state;
       sessionId := sessionId state;
       lastSaved := lastSaved state |}) w.

(** [setSubmitted()].  After the update the body reads [state.config?.id],
    but [state] is the parameter of the callback passed to
    [formState.update] and is not bound where the [if] stands: once
    [browser] is true the test raises a ReferenceError and [storage.remove]
    is not reached. *)
Definition setSubmitted (w : Stores) : Stores * Completion :=
  let w1 :=
    formState_update (fun state =>
      {| config := config state;
         data := data state;
         errors := errors state;
         isSubmitting := isSubmitting state;
         isSubmitted := true;
         sessionId := sessionId state;
         lastSaved := lastSaved state |}) w in
  if browser (runtime w1)
  then (w1, Throws (ReferenceError "state"))
  else (w1, Returns).

(** [reset()]: the configuration is read from the [formConfig] store. *)
Definition reset (now : N) (suffix : jsstring) (w : Stores) : Stores :=
  match formConfig w with
  | Some cfg =>
      let w1 :=
        formState_update (fun state =>
          {| config := config state;
             data := ∅;
             errors := ∅;
             isSubmitting := isSubmitting state;
             isSubmitted := false;
             sessionId := generateSessionId now suffix;
             lastSaved := lastSaved state |}) w in
      if browser (runtime w1)
      then set_runtime (storage_remove (storage_key (id cfg)) (runtime w1)) w1
      else w1
  | None => w
  end.

(** One turn of the loop of [validate]: [acc] is [(errors, isValid)]. *)
Definition validate_field (d : gmap jsstring value)
    (acc : gmap jsstring jsstring * bool) (field : FormField)
    : gmap jsstring jsstring * bool :=
  let v := get_value d (name field) in
  if required_and_blank field v then
    (assign (name field) (required_message field) acc.1, false)
  else if truthy v then
    match type field with
    | email =>
        if negb (RegExp_test emailRegex (ToString v))
        then (assign (name field) (lit "Please enter a valid email address") acc.1,
              false)
        else acc
    | phone =>
        if negb (RegExp_test phoneRegex (ToString v))
        then (assign (name field) (lit "Please enter a valid phone number") acc.1,
              false)
        else acc
    | text | textarea =>
        let strValue := ToString v in
        let vmin := default 0 (validation_min field) in
        let vmax := default 0 (validation_max field) in
        let acc1 :=
          if number_truthy (validation_min field)
             && (Z.of_nat (length strValue) <? vmin)
          then (assign (name field) (min_message vmin) acc.1, false)
          else acc in
        if number_truthy (validation_max field)
           && (vmax <? Z.of_nat (length strValue))
        then (assign (name field) (max_message vmax) acc1.1, false)
        else acc1
    | select | checkbox => acc
    end
  else acc.

(** [validate()]: the verdict and the stores afterwards. *)
Definition validate (w : Stores) : bool * Stores :=
  let state := formState w in
  match config state with
  | None => (false, w)
  | Some cfg =>
      let '(errs, isValid) :=
        fold_left (validate_field (data state)) (fields cfg) (∅, true) in
      (isValid, formState_update (with_errors errs) w)
  end.

End formActions.

(** ** The dynamic form composer (src/lib/components/DynamicForm.svelte) *)

(** [array.indexOf(x)]: the first position of [x], or -1. *)
Fixpoint indexOf (l : list jsstring) (x : jsstring) : Z :=
  match l with
  | [] => -1
  | y :: l' =>
      if decide (y = x) then 0
      else let i := indexOf l' x in if i <? 0 then -1 else i + 1
  end.

(** [array.sort(compare)]: the sort is stable; with a comparator that is a
    difference of keys, as here, any stable sort returns the same array.
    It is run as an insertion sort. *)
Fixpoint sort_insert {A} (compare : A -> A -> Z) (x : A) (l : list A)
    : list A :=
  match l with
  | [] => [x]
  | y :: l' =>
      if compare x y <=? 0 then x :: l else y :: sort_insert compare x l'
  end.

Definition Array_sort {A} (compare : A -> A -> Z) (l : list A) : list A :=
  foldr (sort_insert compare) [] l.

(** [array.forEach((x, index) => ...)], threading the state the callback
    mutates. *)
Fixpoint forEach_from {A St} (f : St -> A -> nat -> St) (l : list A)
    (index : nat) (st : St) : St :=
  match l with
  | [] => st
  | x :: l' => forEach_from f l' (S index) (f st x index)
  end.

Definition Array_forEach {A St} (f : St -> A -> nat -> St) (l : list A)
    (st : St) : St :=
  forEach_from f l 0%nat st.

Module DynamicForm.

(** The reply the component reads from [fetch('/api/submit', ...)]. *)
Record ApiResult := {
  success : bool;
  error : option jsstring;
  submissionId : option jsstring
}.

Inductive FetchOutcome :=
| Rejected (message : jsstring)
| Replied (result : ApiResult).

(** [JSON.stringify(formData)] as the endpoint will parse it: members whose
    value is [undefined] are left out. *)
Definition formData_json (d : gmap jsstring value) : list (jsstring * json) :=
  map_to_list
    (omap (fun v => match v with
                    | VUndefined => None
                    | VString s => Some (JString s)
                    | VBoolean b => Some (JBool b)
                    end) d).

(** The argument of [formState.updateState]. *)
Record Patch := {
  patch_data : option (gmap jsstring value);
  patch_errors : option (gmap jsstring jsstring);
  patch_isSubmitting : option bool;
  patch_isSubmitted : option bool
}.

Inductive Event :=
| change (fieldName : jsstring) (v : value) (formData : gmap jsstring value)
| field_error (fieldName error : jsstring)
| validationError (errors : gmap jsstring jsstring)
| submit (data : gmap jsstring value) (result : ApiResult)
| error_event (error : Error)
| reset.

(** The calls a handler makes outside the component and the storage, in
    order. *)
Inductive Effect :=
| dispatch (e : Event)
| trackFormSubmit (formId orgId : jsstring) (ok : bool)
| fetch (url : jsstring) (method : jsstring) (body : FormSubmission)
| console_error (error : Error).

(** The props and the local variables of the component, with the two
    ambient strings [navigator.userAgent] and [document.referrer]. *)
Record Component := {
  config : FormConfig;
  disabled : bool;
  showProgress : bool;
  formData : gmap jsstring value;
  errors : gmap jsstring jsstring;
  isSubmitting : bool;
  navigator_userAgent : jsstring;
  document_referrer : jsstring
}.

Definition set_form (d : gmap jsstring value) (errs : gmap jsstring jsstring)
    (c : Component) : Component :=
  {| config := config c; disabled := disabled c;
     showProgress := showProgress c; formData := d;
     errors := errs; isSubmitting := isSubmitting c;
     navigator_userAgent := navigator_userAgent c;
     document_referrer := document_referrer c |}.

Definition set_errors (errs : gmap jsstring jsstring) (c : Component)
    : Component :=
  set_form (formData c) errs c.

Definition set_isSubmitting (b : bool) (c : Component) : Component :=
  {| config := config c; disabled := disabled c;
     showProgress := showProgress c; formData := formData c;
     errors := errors c; isSubmitting := b;
     navigator_userAgent := navigator_userAgent c;
     document_referrer := document_referrer c |}.

Definition errors_patch (errs : gmap jsstring jsstring) : Patch :=
  {| patch_data := None; patch_errors := Some errs;
     patch_isSubmitting := None; patch_isSubmitted := None |}.

Definition submitting_patch (b : bool) : Patch :=
  {| patch_data := None; patch_errors := None;
     patch_isSubmitting := Some b; patch_isSubmitted := None |}.

Definition submitted_patch : Patch :=
  {| patch_data := None; patch_errors := None;
     patch_isSubmitting := Some false; patch_isSubmitted := Some true |}.

(** *** Handlers

    A handler runs on the component and the [localStorage] of the page.  It
    leaves both changed, makes calls, and returns or throws. *)
Record Run (A : Type) := {
  completion : Outcome A;
  component : Component;
  localStorage : gmap jsstring StorageItem;
  calls : list Effect
}.

Arguments completion {A} r.
Arguments component {A} r.
Arguments localStorage {A} r.
Arguments calls {A} r.

Definition Handler (A : Type) : Type :=
  Component -> gmap jsstring StorageItem -> Run A.

Definition ret {A} (a : A) : Handler A :=
  fun c ls =>
    {| completion := Normal a; component := c; localStorage := ls;
       calls := [] |}.

Definition throw {A} (e : Error) : Handler A :=
  fun c ls =>
    {| completion := Abrupt e; component := c; localStorage := ls;
       calls := [] |}.

(** [m; f]: what follows a statement that throws is not run. *)
Definition bind {A B} (m : Handler A) (f : A -> Handler B) : Handler B :=
  fun c ls =>
    let r := m c ls in
    match completion r with
    | Normal a =>
        let r' := f a (component r) (localStorage r) in
        {| completion := completion r'; component := component r';
           localStorage := localStorage r'; calls := calls r ++ calls r' |}
    | Abrupt e =>
        {| completion := Abrupt e; component := component r;
           localStorage := localStorage r; calls := calls r |}
    end.

Declare Scope handler_scope.
Delimit Scope handler_scope with handler.
Bind Scope handler_scope with Handler.

Notation "x <- m ; f" := (bind m (fun x => f))
  (at level 200, m at level 100, f at level 200, right associativity)
  : handler_scope.
Notation "m >> f" := (bind m (fun _ => f))
  (at level 200, f at level 200, right associativity) : handler_scope.

Local Open Scope handler_scope.

(** [try { body } catch (error) { handler } finally { finalizer }] *)
Definition try_catch_finally (body : Handler unit)
    (handler : Error -> Handler unit) (finalizer : Handler unit)
    : Handler unit :=
  fun c ls =>
    let r := body c ls in
    let r1 :=
      match completion r with
      | Normal _ => r
      | Abrupt e =>
          let h := handler e (component r) (localStorage r) in
          {| completion := completion h; component := component h;
             localStorage := localStorage h; calls := calls r ++ calls h |}
      end in
    let f := finalizer (component r1) (localStorage r1) in
    {| completion :=
         match completion f with
         | Normal _ => completion r1
         | Abrupt e => Abrupt e
         end;
       component := component f; localStorage := localStorage f;
       calls := calls r1 ++ calls f |}.

(** The local variables as they stand. *)
Definition read : Handler Component :=
  fun c ls =>
    {| completion := Normal c; component := c; localStorage := ls;
       calls := [] |}.

(** An assignment to local variables. *)
Definition update (f : Component -> Component) : Handler unit :=
  fun c ls =>
    {| completion := Normal tt; component := f c; localStorage := ls;
       calls := [] |}.

Definition call (e : Effect) : Handler unit :=
  fun c ls =>
    {| completion := Normal tt; component := c; localStorage := ls;
       calls := [e] |}.

(** The outcome of a computation that touches nothing. *)
Definition lift {A} (o : Outcome A) : Handler A :=
  match o with
  | Normal a => ret a
  | Abrupt e => throw e
  end.

(** [localStorage.setItem(key, JSON.stringify(d))] *)
Definition localStorage_setItem (key : jsstring) (d : gmap jsstring value)
    : Handler unit :=
  fun c ls =>
    {| completion := Normal tt; component := c;
       localStorage := <[key := Serialized (JSON_stringify d)]> ls;
       calls := [] |}.

(** [localStorage.removeItem(key)] *)
Definition localStorage_removeItem (key : jsstring) : Handler unit :=
  fun c ls =>
    {| completion := Normal tt; component := c; localStorage := delete key ls;
       calls := [] |}.

(** [formState.updateState(patch)].  [formState] is the store that
    stores.ts makes with [writable(...)]: its members are [set], [update]
    and [subscribe].  It has no member [updateState], so the call is a call
    of [undefined] and raises a TypeError. *)
Definition formState_updateState (p : Patch) : Handler unit :=
  throw (TypeError "formState.updateState").

(** [await fetch(url, { method, body })] and [await response.json()], with
    [server] standing for the endpoint: a rejected call throws. *)
Definition fetch_json (server : FormSubmission -> FetchOutcome)
    (url method : jsstring) (body : FormSubmission) : Handler ApiResult :=
  call (fetch url method body) >>
  match server body with
  | Rejected message => throw (PlainError message)
  | Replied result => ret result
  end.

(** [errors[fieldName]] on the error map, a plain object as well. *)
Definition get_error (errs : gmap jsstring jsstring) (fieldName : jsstring)
    : any :=
  get_value (VString <$> errs) fieldName.

(** [handleFieldChange(fieldName, value)] *)
Definition handleFieldChange (fieldName : jsstring) (v : value)
    : Handler unit :=
  c <- read;
  let formData' := <[fieldName := v]> (formData c) in
  let errors' :=
    if truthy (get_error (errors c) fieldName)
    then delete fieldName (errors c)
    else errors c in
  update (set_form formData' errors') >>
  formState_updateState
    {| patch_data := Some formData'; patch_errors := Some errors';
       patch_isSubmitting := None; patch_isSubmitted := None |} >>
  (* [config.settings?.auto_save !== false] *)
  (if match settings (config c) with
      | Some st => auto_save st
      | None => true
      end
   then localStorage_setItem (storage_key (id (config c))) formData'
   else ret tt) >>
  call (dispatch (change fieldName v formData')).

(** [handleFieldError(fieldName, error)] *)
Definition handleFieldError (fieldName error : jsstring) : Handler unit :=
  c <- read;
  let errors' := <[fieldName := error]> (errors c) in
  update (set_errors errors') >>
  formState_updateState (errors_patch errors') >>
  call (dispatch (field_error fieldName error)).

Section Submit.

Variable RegExp_new : jsstring -> option (jsstring -> bool).

(** One turn of the validation loop of [handleSubmit]: [acc] is
    [(newErrors, isValid)]. *)
Definition check_field (formData : gmap jsstring value)
    (acc : gmap jsstring jsstring * bool) (field : FormField)
    : Outcome (gmap jsstring jsstring * bool) :=
  let v := get_value formData (name field) in
  match validateField RegExp_new field v with
  | Normal Valid => Normal acc
  | Normal (Invalid e) =>
      Normal
        (assign (name field)
           (if truthy (VString e) then e else required_message field) acc.1,
         false)
  | Abrupt err => Abrupt err
  end.

(** [handleSubmit()]; [server] stands for the endpoint behind [fetch].  The
    member [formState.sessionId] is read off the store object, which has no
    such member, so [session_id] is absent from the body. *)
Definition handleSubmit (server : FormSubmission -> FetchOutcome)
    : Handler unit :=
  c <- read;
  if isSubmitting c || disabled c then ret tt
  else
    checked <- lift (Outcome_fold (check_field (formData c))
                       (fields (config c)) (∅, true));
    let newErrors := checked.1 in
    let isValid := checked.2 in
    update (set_errors newErrors) >>
    formState_updateState (errors_patch newErrors) >>
    if negb isValid then call (dispatch (validationError newErrors))
    else
      let cfg := config c in
      update (set_isSubmitting true) >>
      formState_updateState (submitting_patch true) >>
      try_catch_finally
        (call (trackFormSubmit (id cfg) (org_id cfg) false) >>
         let submissionData :=
           {| form_id := id cfg;
              sub_org_code := org_code cfg;
              sub_data := formData_json (formData c);
              session_id := None;
              user_agent := Some (navigator_userAgent c);
              referrer := Some (document_referrer c) |} in
         result <- fetch_json server (lit "/api/submit") (lit "POST")
                     submissionData;
         if success result then
           call (trackFormSubmit (id cfg) (org_id cfg) true) >>
           localStorage_removeItem (storage_key (id cfg)) >>
           formState_updateState submitted_patch >>
           call (dispatch (submit (formData c) result))
         else
           throw (PlainError
                    (match error result with
                     | Some e =>
                         if truthy (VString e) then e
                         else lit "Submission failed"
                     | None => lit "Submission failed"
                     end)))
        (fun error =>
           call (console_error error) >>
           formState_updateState (submitting_patch false) >>
           call (dispatch (error_event error)))
        (update (set_isSubmitting false)).

End Submit.

(** [handleReset()] *)
Definition handleReset : Handler unit :=
  c <- read;
  update (set_form ∅ ∅) >>
  localStorage_removeItem (storage_key (id (config c))) >>
  formState_updateState
    {| patch_data := Some ∅; patch_errors := Some ∅;
       patch_isSubmitting := None; patch_isSubmitted := Some false |} >>
  call (dispatch reset).

(** [config.layout?.columns || 1] *)
Definition layout_columns (cfg : FormConfig) : nat :=
  match layout cfg ≫= columns with
  | Some (S n) => S n
  | Some O => 1
  | None => 1
  end.

(** [config.layout?.fieldOrder || config.fields.map(f => f.name)] *)
Definition layout_fieldOrder (cfg : FormConfig) : list jsstring :=
  default (map name (fields cfg)) (layout cfg ≫= fieldOrder).

(** The comparator handed to [sort]. *)
Definition compare_fields (order : list jsstring) (a b : FormField) : Z :=
  indexOf order (name a) - indexOf order (name b).

Definition sortedFields (cfg : FormConfig) : list FormField :=
  Array_sort (compare_fields (layout_fieldOrder cfg)) (fields cfg).

(** The callback of [sortedFields.forEach].  The index [index % columns] is
    below the number of groups, so the group is there. *)
Definition place_field (columns : nat) (columnGroups : list (list FormField))
    (field : FormField) (index : nat) : list (list FormField) :=
  alter (fun group => group ++ [field]) (index mod columns)%nat columnGroups.

(** [getFieldLayout()] *)
Definition getFieldLayout (c : Component) : list (list FormField) :=
  let cols := layout_columns (config c) in
  let columnGroups := replicate cols [] in
  Array_forEach (place_field cols) (sortedFields (config c)) columnGroups.

End DynamicForm.

(** ** The submission endpoint (src/routes/api/submit/+server.ts) *)

Module SubmitEndpoint.

(** [obj[key]] on a parsed JSON object, given by its members in the order
    of the text; where the text repeats a key, [JSON.parse] keeps the last
    value. *)
Fixpoint member (key : jsstring) (members : list (jsstring * json))
    : option json :=
  match members with
  | [] => None
  | (k, v) :: rest =>
      match member key rest with
      | Some later => Some later
      | None => if decide (k = key) then Some v else None
      end
  end.

(** [z.string()] *)
Definition zod_string (j : option json) : option jsstring :=
  match j with
  | Some (JString s) => Some s
  | _ => None
  end.

(** [z.string().length(6)] *)
Definition zod_string_length (n : nat) (j : option json) : option jsstring :=
  match zod_string j with
  | Some s => if Nat.eqb (length s) n then Some s else None
  | None => None
  end.

(** [z.record(z.any())] under the Zod 4 of the project.  With one argument
    the call makes a record schema whose key schema is [z.any()] and whose
    value schema is [undefined].  Its parser refuses what is not a plain
    object with an issue; on a plain object it starts from an empty record
    and visits the members in turn, skipping the key [__proto__]; at the
    first other member it reads [def.valueType._zod], where
    [def.valueType] is [undefined]: a TypeError. *)
Inductive RecordParse :=
| record_parsed (members : list (jsstring * json))
| record_issue
| record_throws.

(** The message of that TypeError, in the wording of V8; whatever the
    engine, it is not empty. *)
Definition record_TypeError_message : jsstring :=
  lit "Cannot read properties of undefined (reading '_zod')".

Definition zod_record (j : option json) : RecordParse :=
  match j with
  | Some (JObject members) =>
      if forallb (fun m => bool_decide (m.1 = lit "__proto__")) members
      then record_parsed []
      else record_throws
  | _ => record_issue
  end.

(** [z.string().optional()]: the outer option is the verdict. *)
Definition zod_string_optional (j : option json) : option (option jsstring) :=
  match j with
  | None => Some None
  | Some (JString s) => Some (Some s)
  | Some _ => None
  end.

(** The members at fault, as the issues of the [ZodError] name them. *)
Definition issue {A} (path : string) (verdict : option A) : list jsstring :=
  match verdict with
  | Some _ => []
  | None => [lit path]
  end.

(** How [FormSubmissionSchema.parse(body)] ends: with the submission, or
    throwing a [ZodError] with the members at fault, or throwing the
    TypeError of the record schema. *)
Inductive Parse :=
| parsed (submission : FormSubmission)
| throws_ZodError (issues : list jsstring)
| throws_TypeError.

(** [FormSubmissionSchema.parse(body)].  The members are parsed in the
    order of the schema and their issues collected; the TypeError of the
    record schema leaves the parser as soon as [data] is reached, whatever
    the other members hold. *)
Definition FormSubmissionSchema_parse (body : json) : Parse :=
  match body with
  | JObject o =>
      let f := zod_string (member (lit "form_id") o) in
      let c := zod_string_length 6 (member (lit "org_code") o) in
      let s := zod_string_optional (member (lit "session_id") o) in
      let u := zod_string_optional (member (lit "user_agent") o) in
      let r := zod_string_optional (member (lit "referrer") o) in
      match zod_record (member (lit "data") o) with
      | record_throws => throws_TypeError
      | record_issue =>
          throws_ZodError
            (issue "form_id" f ++ issue "org_code" c ++ [lit "data"]
             ++ issue "session_id" s ++ issue "user_agent" u
             ++ issue "referrer" r)
      | record_parsed d' =>
          match f, c, s, u, r with
          | Some f', Some c', Some s', Some u', Some r' =>
              parsed {| form_id := f'; sub_org_code := c'; sub_data := d';
                        session_id := s'; user_agent := u'; referrer := r' |}
          | _, _, _, _, _ =>
              throws_ZodError
                (issue "form_id" f ++ issue "org_code" c
                 ++ issue "session_id" s ++ issue "user_agent" u
                 ++ issue "referrer" r)
          end
      end
  | _ => throws_ZodError [[]]
  end.

(** The rows the endpoint writes. *)
Record SessionRow := {
  session_org_id : jsstring;
  session_form_id : jsstring;
  session_session_id : jsstring;
  browser_userAgent : option jsstring;
  browser_referrer : option jsstring;
  started_at : Date
}.

Record AnalyticsRow := {
  event_org_id : jsstring;
  event_form_id : jsstring;
  event_type : jsstring;
  event_data : list (jsstring * json);
  event_session_id : option jsstring;
  event_user_agent : option jsstring
}.

(** The hosted tables the endpoint touches. *)
Record Database := {
  org_custom_forms : list FormConfig;
  form_sessions : list SessionRow;
  form_analytics : list AnalyticsRow
}.

(** [getFormByOrgCode(orgCode)]: [.eq('org_code', orgCode).single()] gives
    the row when exactly one matches, and an error with no data otherwise. *)
Definition getFormByOrgCode (orgCode : jsstring) (db : Database)
    : option FormConfig :=
  match filter (fun row => org_code row = orgCode) (org_custom_forms db) with
  | [row] => Some row
  | _ => None
  end.

Definition createFormSession (row : SessionRow) (db : Database) : Database :=
  {| org_custom_forms := org_custom_forms db;
     form_sessions := form_sessions db ++ [row];
     form_analytics := form_analytics db |}.

Definition trackAnalyticsEvent (row : AnalyticsRow) (db : Database)
    : Database :=
  {| org_custom_forms := org_custom_forms db;
     form_sessions := form_sessions db;
     form_analytics := form_analytics db ++ [row] |}.

(** [request.json()]: the parsed body, or the SyntaxError it throws. *)
Inductive RequestBody :=
| NotJson (message : jsstring)
| Json (body : json).

Record Receipt := {
  submission_id : jsstring;
  receipt_org_id : jsstring;
  receipt_form_id : jsstring;
  submitted_at : Date
}.

(** The object handed to [json(...)]. *)
Record ResponseBody := {
  success : option bool;
  error : option jsstring;
  message : option jsstring;
  data : option Receipt;
  details : option (list jsstring);
  code : option jsstring
}.

Record Response := {
  status : nat;
  body : ResponseBody
}.

Definition failure (st : nat) (err : jsstring)
    (det : option (list jsstring)) (cd : option jsstring) : Response :=
  {| status := st;
     body := {| success := Some false; error := Some err; message := None;
                data := None; details := det; code := cd |} |}.

(** [handleApiError(error)] on a thrown error that carries [message] and no
    [code]: the message and code of the [FormError] it builds. *)
Definition handleApiError (message : jsstring)
    : jsstring * option jsstring :=
  if truthy (VString message) then (message, None)
  else (lit "An unexpected error occurred", Some (lit "UNKNOWN_ERROR")).

(** [POST({ request })]; [now] is the reading of the clock and [suffix] the
    text of the random draw that make the submission identifier.  In the
    [catch] block a [ZodError] is answered with 400; a [ZodError] of Zod 4
    has [issues] and no member [errors], so [details] is [undefined] and the
    body goes without it.  Any other error goes through [handleApiError] to
    500. *)
Definition POST (now : N) (suffix : jsstring) (request : RequestBody)
    (db : Database) : Response * Database :=
  match request with
  | NotJson msg =>
      let '(m, c) := handleApiError msg in (failure 500 m None c, db)
  | Json b =>
      match FormSubmissionSchema_parse b with
      | throws_ZodError _ =>
          (failure 400 (lit "Invalid submission data") None None, db)
      | throws_TypeError =>
          let '(m, c) := handleApiError record_TypeError_message in
          (failure 500 m None c, db)
      | parsed submission =>
          match getFormByOrgCode (sub_org_code submission) db with
          | None =>
              (failure 404 (lit "Invalid organization code or form not found")
                 None None, db)
          | Some formConfig =>
              if negb (bool_decide (id formConfig = form_id submission)) then
                (failure 400 (lit "Form ID mismatch") None None, db)
              else
                let db1 :=
                  match session_id submission with
                  | Some sid =>
                      if truthy (VString sid) then
                        createFormSession
                          {| session_org_id := org_id formConfig;
                             session_form_id := id formConfig;
                             session_session_id := sid;
                             browser_userAgent := user_agent submission;
                             browser_referrer := referrer submission;
                             started_at := now |} db
                      else db
                  | None => db
                  end in
                let db2 :=
                  trackAnalyticsEvent
                    {| event_org_id := org_id formConfig;
                       event_form_id := id formConfig;
                       event_type := lit "submit";
                       event_data := sub_data submission;
                       event_session_id := session_id submission;
                       event_user_agent := user_agent submission |} db1 in
                ({| status := 200;
                    body :=
                      {| success := Some true;
                         error := None;
                         message := Some (lit "Form submitted successfully");
                         data :=
                           Some {| submission_id :=
                                     lit "sub_" ++ Date_toString now
                                     ++ lit "_" ++ suffix;
                                   receipt_org_id := org_id formConfig;
                                   receipt_form_id := id formConfig;
                                   submitted_at := now |};
                         details := None;
                         code := None |} |}, db2)
          end
      end
  end.

(** [GET()] *)
Definition GET : Response :=
  {| status := 405;
     body := {| success := None; error := Some (lit "Method not allowed");
                message := None; data := None; details := None;
                code := None |} |}.

End SubmitEndpoint.

(** ** The words of the specification, for comparison with the code *)

Section ValidateAllSpec.

Variable RegExp_new : jsstring -> option (jsstring -> bool).

(** One turn of "runs the Validation Utility over every field in the active
    config against current data", on the pair [validate] carries: a failing
    field has its message assigned under its name, as the code assigns
    it. *)
Definition by_validateField_step (d : gmap jsstring value)
    (acc : gmap jsstring jsstring * bool) (field : FormField)
    : Outcome (gmap jsstring jsstring * bool) :=
  match validateField RegExp_new field (get_value d (name field)) with
  | Normal Valid => Normal acc
  | Normal (Invalid e) => Normal (assign (name field) e acc.1, false)
  | Abrupt err => Abrupt err
  end.

(** The field-by-field run: the error map and the "overall pass/fail", or
    the error that a call of the utility throws. *)
Definition by_validateField (cfg : FormConfig) (d : gmap jsstring value)
    : Outcome (gmap jsstring jsstring * bool) :=
  Outcome_fold (by_validateField_step d) (fields cfg) (∅, true).

(** Its error map. *)
Definition errors_by_validateField (cfg : FormConfig)
    (d : gmap jsstring value) : Outcome (gmap jsstring jsstring) :=
  match by_validateField cfg d with
  | Normal r => Normal r.1
  | Abrupt err => Abrupt err
  end.

(** Its "overall pass/fail". *)
Definition verdict_by_validateField (cfg : FormConfig)
    (d : gmap jsstring value) : Outcome bool :=
  match by_validateField cfg d with
  | Normal r => Normal r.2
  | Abrupt err => Abrupt err
  end.

End ValidateAllSpec.

(** A text or textarea field on which [validate] and [validateField] cannot part: no pattern, and
    bounds that no length violates together. *)
Definition pattern_free (field : FormField) : Prop :=
  (type field = text ∨ type field = textarea) ->
  string_truthy (validation_pattern field) = false
  ∧ (default 0 (validation_min field) <= default 0 (validation_max field)
     ∨ number_truthy (validation_min field) = false
     ∨ number_truthy (validation_max field) = false).

(** "The body passes structural validation": it is JSON and the schema
    accepts it. *)
Definition structurally_valid (request : SubmitEndpoint.RequestBody)
    : option FormSubmission :=
  match request with
  | SubmitEndpoint.NotJson _ => None
  | SubmitEndpoint.Json b =>
      match SubmitEndpoint.FormSubmissionSchema_parse b with
      | SubmitEndpoint.parsed submission => Some submission
      | _ => None
      end
  end.

(** The four outcomes the specification lists for a POST, on a response. *)
Definition listed_outcome (submission : option FormSubmission)
    (db : SubmitEndpoint.Database) (now : N) (suffix : jsstring)
    (r : SubmitEndpoint.Response) : Prop :=
  match submission with
  | None => SubmitEndpoint.status r = 400%nat
  | Some sub =>
      match SubmitEndpoint.getFormByOrgCode (sub_org_code sub) db with
      | None =>
          SubmitEndpoint.status r = 404%nat
          ∧ SubmitEndpoint.error (SubmitEndpoint.body r)
            = Some (lit "Invalid organization code or form not found")
      | Some stored =>
          if decide (id stored = form_id sub) then
            SubmitEndpoint.status r = 200%nat
            ∧ SubmitEndpoint.success (SubmitEndpoint.body r) = Some true
            ∧ ∃ receipt,
                SubmitEndpoint.data (SubmitEndpoint.body r) = Some receipt
                ∧ SubmitEndpoint.submission_id receipt
                  = lit "sub_" ++ Date_toString now ++ lit "_" ++ suffix
                ∧ SubmitEndpoint.receipt_org_id receipt = org_id stored
                ∧ SubmitEndpoint.receipt_form_id receipt = id stored
          else
            SubmitEndpoint.status r = 400%nat
            ∧ SubmitEndpoint.error (SubmitEndpoint.body r)
              = Some (lit "Form ID mismatch")
      end
  end.

(** How many of the indices below [n] are congruent to [k] modulo [c]. *)
Definition column_height (c k n : nat) : nat :=
  (n / c + (if k <? n mod c then 1 else 0))%nat.

(** The column groups hold the first [n] fields, dealt in turn. *)
Definition dealt (c n : nat) (columnGroups : list (list FormField)) : Prop :=
  length columnGroups = c
  ∧ ∀ k col, columnGroups !! k = Some col -> length col = column_height c k n.

(** What the claim calls a value that is empty or whitespace-only; a value
    that is falsy ([undefined], [false]) is rejected the same way. *)
Definition blank (v : any) : Prop :=
  truthy v = false ∨ Forall (fun c => is_whitespace c = true) (ToString v).

(** [N] consecutive identical calls of [updateField], one clock reading per
    call. *)
Definition updateField_repeatedly (times : list Date) (fieldName : jsstring)
    (v : value) (w : Stores) : Stores :=
  fold_left (fun w' now => formActions.updateField now fieldName v w')
    times w.

(** The shape of the strings [emailRegex] accepts:
    local part, [@], domain, [.], suffix; none empty, none with white space
    or [@] inside. *)
Definition email_shape (s : jsstring) : Prop :=
  ∃ a b c : jsstring,
    s = a ++ [64%N] ++ b ++ [46%N] ++ c
    ∧ a ≠ [] ∧ b ≠ [] ∧ c ≠ []
    ∧ Forall (fun x => not_space_or_at x = true) a
    ∧ Forall (fun x => not_space_or_at x = true) b
    ∧ Forall (fun x => not_space_or_at x = true) c.

(** ** Sample data, for the examples *)

Module Sample.

(** [^[0-9]+$] *)
Definition digits_pattern : jsstring := lit "^[0-9]+$".

(** An engine for the examples: it compiles [digits_pattern], refuses the
    unclosed group [(], and under any other pattern accepts every
    string. *)
Definition engine (p : jsstring) : option (jsstring -> bool) :=
  if decide (p = digits_pattern)
  then Some (RegExp_test (RPlus (RClass is_digit)))
  else if decide (p = lit "(") then None
  else Some (fun _ => true).

Definition field (n l : string) (t : FieldType) (req : bool)
    (val : option Validation) : FormField :=
  {| field_id := lit n; name := lit n; label := lit l; type := t;
     required := req; placeholder := None; options := None;
     validation := val |}.

(** An optional text field with no rule, named and labelled [n]. *)
Definition plain (n : string) : FormField := field n n text false None.

Definition form (fs : list FormField) (lay : option Layout)
    (st : option Settings) : FormConfig :=
  {| id := lit "f1"; org_id := lit "org1"; slug := lit "acme";
     org_code := lit "ABC123"; logo_url := None;
     colors := {| primary := lit "#3b82f6"; secondary := lit "#64748b";
                  background := lit "#ffffff"; text_color := lit "#1f2937" |};
     fields := fs; layout := lay; settings := st |}.

Definition state (cfg : option FormConfig) (d : gmap jsstring value)
    (sid : jsstring) : FormState :=
  {| config := cfg; data := d; errors := ∅; isSubmitting := false;
     isSubmitted := false; sessionId := sid; lastSaved := None |}.

Definition stores (cfg : option FormConfig) (d : gmap jsstring value)
    (sid : jsstring) (rt : Runtime) : Stores :=
  {| formState := state cfg d sid; formConfig := cfg;
     autoSaveEnabled := true; lastAutoSave := None; runtime := rt |}.

Definition component (cfg : FormConfig) (off : bool)
    (d : gmap jsstring value) : DynamicForm.Component :=
  {| DynamicForm.config := cfg; DynamicForm.disabled := off;
     DynamicForm.showProgress := false; DynamicForm.formData := d;
     DynamicForm.errors := ∅; DynamicForm.isSubmitting := false;
     DynamicForm.navigator_userAgent := lit "Mozilla/5.0";
     DynamicForm.document_referrer := [] |}.

End Sample.

(** ** More of src/lib/utils.ts *)

Module utils.

(** [s.slice(from, to)] for [0 <= from <= to]. *)
Definition slice (from to : nat) (s : jsstring) : jsstring :=
  take (to - from) (drop from s).

(** [formatPhoneNumber(phone)]; [phone.replace(/\D/g, '')] keeps the
    digits. *)
Definition formatPhoneNumber (phone : jsstring) : jsstring :=
  let cleaned := List.filter is_digit phone in
  if Nat.eqb (length cleaned) 10 then
    lit "(" ++ slice 0 3 cleaned ++ lit ") " ++ slice 3 6 cleaned
    ++ lit "-" ++ drop 6 cleaned
  else phone.

(** [[a-f\d]] under the flag [i]. *)
Definition is_hex (c : code_unit) : bool :=
  (is_digit c || (97 <=? c) && (c <=? 102) || (65 <=? c) && (c <=? 70))%N.

(** The value of a hexadecimal digit. *)
Definition hex_value (c : code_unit) : N :=
  (if is_digit c then c - 48
   else if 97 <=? c then c - 87
   else c - 55)%N.

(** [parseInt(s, 16)] on a string of hexadecimal digits. *)
Definition parseInt16 (s : jsstring) : N :=
  fold_left (fun acc c => acc * 16 + hex_value c)%N s 0%N.

Record RGB := {
  r : N;
  g : N;
  b : N
}.

(** [hexToRgb(hex)]: the expression
    [/^#?([a-f\d]{2})([a-f\d]{2})([a-f\d]{2})$/i] takes an optional [#] and
    then exactly six hexadecimal digits. *)
Definition hexToRgb (hex : jsstring) : option RGB :=
  let digits := match hex with
                | 35%N :: rest => rest
                | _ => hex
                end in
  match digits with
  | [r1; r2; g1; g2; b1; b2] =>
      if forallb is_hex digits
      then Some {| r := parseInt16 [r1; r2];
                   g := parseInt16 [g1; g2];
                   b := parseInt16 [b1; b2] |}
      else None
  | _ => None
  end.

(** The numerator of [brightness]: [brightness > 128] holds exactly when it
    exceeds 128000. *)
Definition brightness1000 (c : RGB) : N :=
  (r c * 299 + g c * 587 + b c * 114)%N.

(** [getContrastColor(hex)] *)
Definition getContrastColor (hex : jsstring) : jsstring :=
  match hexToRgb hex with
  | None => lit "#000000"
  | Some rgb =>
      if (128000 <? brightness1000 rgb)%N then lit "#000000"
      else lit "#ffffff"
  end.

(** What [handleApiError] reads of the value it is given: [error?.code],
    [error?.message] and [error?.field]. *)
Record Thrown := {
  thrown_code : option jsstring;
  thrown_message : option jsstring;
  thrown_field : option jsstring
}.

Record FormError := {
  message : jsstring;
  field : option jsstring;
  code : option jsstring
}.

(** [handleApiError(error)] *)
Definition handleApiError (error : Thrown) : FormError :=
  if bool_decide (thrown_code error = Some (lit "PGRST116")) then
    {| message := lit "Form not found"; field := None;
       code := Some (lit "FORM_NOT_FOUND") |}
  else if string_truthy (thrown_message error) then
    {| message := default [] (thrown_message error);
       field := thrown_field error;
       code := thrown_code error |}
  else
    {| message := lit "An unexpected error occurred"; field := None;
       code := Some (lit "UNKNOWN_ERROR") |}.

(** [[A-Z0-9]] *)
Definition is_code_char (c : code_unit) : bool :=
  (is_digit c || (65 <=? c) && (c <=? 90))%N.

(** [getOrgCodeFromUrl()]; [pathname] is [window.location.pathname], absent
    where there is no [window].  The expression [/^\/([A-Z0-9]{6})/] is
    anchored at the start only. *)
Definition getOrgCodeFromUrl (pathname : option jsstring) : option jsstring :=
  match pathname with
  | Some (47%N :: rest) =>
      let candidate := take 6 rest in
      if Nat.eqb (length candidate) 6 && forallb is_code_char candidate
      then Some candidate else None
  | _ => None
  end.

(** [buildFormUrl(orgCode, baseUrl)]; [origin] is [window.location.origin],
    absent where there is no [window]. *)
Definition buildFormUrl (orgCode : jsstring) (baseUrl origin : option jsstring)
    : jsstring :=
  let base :=
    if string_truthy baseUrl then default [] baseUrl
    else default [] origin in
  base ++ lit "/" ++ orgCode.

End utils.

(** ** More of src/lib/stores.ts: the derived stores and the analytics *)

(** [isValid]: [Object.keys($formState.errors).length === 0] *)
Definition isValid (state : FormState) : bool :=
  Nat.eqb (size (errors state)) 0.

Module analyticsActions.

Inductive EventType :=
| view | submit | abandon | error | field_focus | field_blur | field_change.

(** The last argument of [trackFieldInteraction]. *)
Inductive Interaction := focus | blur | change.

Record AnalyticsEvent := {
  form_id : jsstring;
  org_id : jsstring;
  event_type : EventType;
  session_id : jsstring;
  duration_ms : option Z;
  field_name : option jsstring;
  field_type : option jsstring;
  user_agent : option jsstring
}.

(** The [analyticsQueue] store and what [console.log] has received. *)
Record Tracker := {
  analyticsQueue : list AnalyticsEvent;
  console_log : list (list AnalyticsEvent)
}.

(** [processAnalyticsQueue()] *)
Definition processAnalyticsQueue (t : Tracker) : Tracker :=
  match analyticsQueue t with
  | [] => t
  | queue =>
      {| analyticsQueue := [];
         console_log := console_log t ++ [queue] |}
  end.

(** [trackEvent(event)] *)
Definition trackEvent (event : AnalyticsEvent) (t : Tracker) : Tracker :=
  processAnalyticsQueue
    {| analyticsQueue := analyticsQueue t ++ [event];
       console_log := console_log t |}.

(** The ambient values the constructors read: [get(formState).sessionId],
    [browser ? navigator.userAgent : undefined] and
    [get(sessionDuration)]. *)
Record Ambient := {
  ambient_sessionId : jsstring;
  ambient_userAgent : option jsstring;
  ambient_duration : Z
}.

(** [trackFormView(formId, orgId)] *)
Definition trackFormView (env : Ambient) (formId orgId : jsstring)
    (t : Tracker) : Tracker :=
  trackEvent
    {| form_id := formId; org_id := orgId; event_type := view;
       session_id := ambient_sessionId env; duration_ms := None;
       field_name := None; field_type := None;
       user_agent := ambient_userAgent env |} t.

(** [trackFormSubmit(formId, orgId, success)] *)
Definition trackFormSubmit (env : Ambient) (formId orgId : jsstring)
    (success : bool) (t : Tracker) : Tracker :=
  trackEvent
    {| form_id := formId; org_id := orgId;
       event_type := if success then submit else error;
       session_id := ambient_sessionId env;
       duration_ms := Some (ambient_duration env);
       field_name := None; field_type := None;
       user_agent := ambient_userAgent env |} t.

(** [trackFieldInteraction(formId, orgId, fieldName, fieldType, eventType)] *)
Definition trackFieldInteraction (env : Ambient) (formId orgId : jsstring)
    (fieldName fieldType : jsstring) (eventType : Interaction) (t : Tracker)
    : Tracker :=
  trackEvent
    {| form_id := formId; org_id := orgId;
       event_type := match eventType with
                     | focus => field_focus
                     | blur => field_blur
                     | change => field_change
                     end;
       session_id := ambient_sessionId env; duration_ms := None;
       field_name := Some fieldName; field_type := Some fieldType;
       user_agent := ambient_userAgent env |} t.

End analyticsActions.

(** A run of [handleFieldChange] calls, one per pair, on the component and
    the storage of the page: each call starts where the one before left
    them, however it ended. *)
Definition handle_changes (changes : list (jsstring * value))
    (c : DynamicForm.Component) (ls : gmap jsstring StorageItem)
    : DynamicForm.Component * gmap jsstring StorageItem :=
  fold_left
    (fun st change =>
       let r := DynamicForm.handleFieldChange change.1 change.2 st.1 st.2 in
       (DynamicForm.component r, DynamicForm.localStorage r))
    changes (c, ls).

(** ** Regular expressions: the derivative matcher decides the language *)

Lemma matches_nil_nullable r s : matches r s -> s = [] -> nullable r = true.
Proof.
  induction 1 as [ | p c Hp | r1 r2 s1 s2 _ IH1 _ IH2 | r1 r2 s _ IH
                 | r1 r2 s _ IH | r | r s1 s2 _ _ _ _ ]; intros Hs; simpl;
    try reflexivity.
  - discriminate.
  - apply app_eq_nil in Hs as [-> ->]. now rewrite IH1, IH2.
  - now rewrite IH.
  - rewrite IH by assumption. apply orb_true_r.
Qed.

Lemma nullable_matches_nil r : nullable r = true -> matches r [].
Proof.
  induction r as [ | | p | r1 IH1 r2 IH2 | r1 IH1 r2 IH2 | r IH ]; simpl;
    intros Hn; try discriminate.
  - constructor.
  - apply andb_true_iff in Hn as [H1 H2].
    change (@nil N) with (@nil N ++ []). constructor; auto.
  - apply orb_true_iff in Hn as [H1 | H2];
      [apply M_alt_l | apply M_alt_r]; auto.
  - constructor.
Qed.

Lemma deriv_sound c r : ∀ s, matches (deriv c r) s -> matches r (c :: s).
Proof.
  induction r as [ | | p | r1 IH1 r2 IH2 | r1 IH1 r2 IH2 | r IH ]; simpl;
    intros s H.
  - inversion H.
  - inversion H.
  - destruct (p c) eqn:Hp; inversion H; subst. now constructor.
  - destruct (nullable r1) eqn:Hn.
    + inversion H as [ | | | ? ? ? Hl | ? ? ? Hr | | ]; subst.
      * inversion Hl as [ | | ? ? s1 s2 H1 H2 | | | | ]; subst.
        change (c :: s1 ++ s2) with ((c :: s1) ++ s2). constructor; auto.
      * change (c :: s) with ([] ++ c :: s).
        constructor; auto using nullable_matches_nil.
    + inversion H as [ | | ? ? s1 s2 H1 H2 | | | | ]; subst.
      change (c :: s1 ++ s2) with ((c :: s1) ++ s2). constructor; auto.
  - inversion H; subst; [apply M_alt_l | apply M_alt_r]; auto.
  - inversion H as [ | | ? ? s1 s2 H1 H2 | | | | ]; subst.
    change (c :: s1 ++ s2) with ((c :: s1) ++ s2). constructor; auto.
Qed.

Lemma deriv_complete c r s0 :
  matches r s0 -> ∀ s, s0 = c :: s -> matches (deriv c r) s.
Proof.
  induction 1 as [ | p c' Hp | r1 r2 s1 s2 H1 IH1 H2 IH2 | r1 r2 s' _ IH
                 | r1 r2 s' _ IH | r | r s1 s2 H1 IH1 H2 IH2 ];
    intros s Hs; simpl.
  - discriminate.
  - injection Hs as -> <-. rewrite Hp. constructor.
  - destruct s1 as [ | c1 s1 ]; simpl in Hs.
    + rewrite (matches_nil_nullable _ _ H1 eq_refl).
      apply M_alt_r. auto.
    + injection Hs as -> <-.
      destruct (nullable r1); [apply M_alt_l | ]; constructor; auto.
  - apply M_alt_l. auto.
  - apply M_alt_r. auto.
  - discriminate.
  - destruct s1 as [ | c1 s1 ]; simpl in Hs.
    + apply (IH2 s Hs).
    + injection Hs as -> <-. constructor; auto.
Qed.

Lemma RegExp_test_matches r s : RegExp_test r s = true ↔ matches r s.
Proof.
  revert r. induction s as [ | c s IH ]; intros r; simpl.
  - split; [apply nullable_matches_nil | ].
    intros H. now apply (matches_nil_nullable _ _ H).
  - rewrite IH. split; [apply deriv_sound | ].
    intros H. now apply (deriv_complete c _ _ H).
Qed.

Lemma matches_star_class p s :
  matches (RStar (RClass p)) s ↔ Forall (fun c => p c = true) s.
Proof.
  split.
  - intros H. remember (RStar (RClass p)) as r eqn:Hr.
    induction H as [ | | | | | r' | r' s1 s2 H1 _ H2 IH2 ]; try discriminate.
    + constructor.
    + injection Hr as ->. inversion H1; subst. constructor; auto.
  - induction 1 as [ | c s Hc _ IH ]; [constructor | ].
    change (c :: s) with ([c] ++ s). constructor; [now constructor | exact IH].
Qed.

Lemma matches_plus_class p s :
  matches (RPlus (RClass p)) s ↔ s ≠ [] ∧ Forall (fun c => p c = true) s.
Proof.
  unfold RPlus. split.
  - intros H. inversion H as [ | | ? ? s1 s2 H1 H2 | | | | ]; subst.
    inversion H1; subst. apply matches_star_class in H2.
    split; [discriminate | constructor; auto].
  - intros [Hne Hall]. destruct s as [ | c s ]; [congruence | ].
    inversion Hall; subst. change (c :: s) with ([c] ++ s).
    constructor; [now constructor | now apply matches_star_class].
Qed.

Lemma matches_emailRegex_shape s : matches emailRegex s ↔ email_shape s.
Proof.
  unfold emailRegex, email_shape. split.
  - intros H.
    inversion H as [ | | ? ? a s1 Ha H1 | | | | ]; subst.
    inversion H1 as [ | | ? ? at_ s2 Hat H2 | | | | ]; subst.
    inversion H2 as [ | | ? ? b s3 Hb H3 | | | | ]; subst.
    inversion H3 as [ | | ? ? dot c Hdot Hc | | | | ]; subst.
    inversion Hat as [ | ? x Hx | | | | | ]; subst.
    inversion Hdot as [ | ? y Hy | | | | | ]; subst.
    apply N.eqb_eq in Hx, Hy. subst x y.
    apply matches_plus_class in Ha, Hb, Hc.
    exists a, b, c. intuition.
  - intros (a & b & c & -> & Ha & Hb & Hc & Fa & Fb & Fc).
    constructor; [now apply matches_plus_class | ].
    constructor; [now constructor | ].
    constructor; [now apply matches_plus_class | ].
    constructor; [now constructor | now apply matches_plus_class].
Qed.

(** ** White space *)

Lemma trimStart_nil s :
  trimStart s = [] ↔ Forall (fun c => is_whitespace c = true) s.
Proof.
  induction s as [ | c s IH ]; simpl.
  - split; [constructor | reflexivity].
  - destruct (is_whitespace c) eqn:Hc.
    + rewrite IH. split; [now constructor | now inversion 1].
    + split; [discriminate | inversion 1; congruence].
Qed.

Lemma trimStart_head s c s' :
  trimStart s = c :: s' -> is_whitespace c = false.
Proof.
  induction s as [ | x s IH ]; simpl; [discriminate | ].
  destruct (is_whitespace x) eqn:Hx; [exact IH | ].
  now intros [= <- _].
Qed.

Lemma trim_nil s : trim s = [] ↔ Forall (fun c => is_whitespace c = true) s.
Proof.
  unfold trim, trimEnd. split.
  - intros H. apply (f_equal (@rev N)) in H. rewrite rev_involutive in H.
    simpl in H. apply trimStart_nil in H.
    apply trimStart_nil.
    destruct (trimStart s) as [ | c s' ] eqn:Hs; [reflexivity | ].
    apply trimStart_head in Hs.
    apply Forall_rev in H. rewrite rev_involutive in H.
    inversion H; congruence.
  - intros H. apply trimStart_nil in H. now rewrite H.
Qed.

Lemma trim_length_0 s :
  Nat.eqb (length (trim s)) 0 = true
  ↔ Forall (fun c => is_whitespace c = true) s.
Proof.
  rewrite <- trim_nil, Nat.eqb_eq. apply length_zero_iff_nil.
Qed.

Lemma required_message_truthy field :
  truthy (VString (required_message field)) = true.
Proof.
  unfold required_message. simpl. rewrite length_app. simpl.
  destruct (length (label field)); reflexivity.
Qed.

Lemma assign_insert {A} key (v : A) rec :
  key ≠ lit "__proto__" -> assign key v rec = <[key := v]> rec.
Proof. intros H. unfold assign. now rewrite decide_False. Qed.

(** ** The validation utility *)

Section ValidationFacts.

Variable RegExp_new : jsstring -> option (jsstring -> bool).

Local Abbreviation validateField := (validateField RegExp_new).

(** Rule 1: a required field with a falsy or blank value. *)
Lemma validateField_required field v :
  required field = true ->
  truthy v = false ∨ Forall (fun c => is_whitespace c = true) (ToString v) ->
  validateField field v = Normal (Invalid (required_message field)).
Proof.
  intros Hreq Hblank. unfold validateField, required_and_blank.
  rewrite Hreq. simpl.
  destruct Hblank as [-> | Hws]; [reflexivity | ].
  apply trim_length_0 in Hws. rewrite Hws, orb_true_r. reflexivity.
Qed.

(** Rule 2: a falsy value on a field that is not required. *)
Lemma validateField_empty_optional field v :
  required field = false -> truthy v = false ->
  validateField field v = Normal Valid.
Proof.
  intros Hreq Hv. unfold validateField, required_and_blank.
  rewrite Hreq, Hv. reflexivity.
Qed.

(** C7, as amended.  On an email field, a value that is not empty and that
    the required rule lets through passes when it matches the email
    regular expression and fails with "Please enter a valid email address"
    when it does not. *)
Theorem validateField_email field v :
  type field = email ->
  truthy v = true ->
  required_and_blank field v = false ->
  (matches emailRegex (ToString v) -> validateField field v = Normal Valid)
  ∧ (¬ matches emailRegex (ToString v) ->
     validateField field v
     = Normal (Invalid (lit "Please enter a valid email address"))).
Proof.
  intros Ht Hv Hrb. unfold validateField. rewrite Hrb, Hv, Ht. simpl.
  destruct (RegExp_test emailRegex (ToString v)) eqn:Htest; simpl.
  - split; [reflexivity | ].
    intros Hn. apply RegExp_test_matches in Htest. contradiction.
  - split; [ | reflexivity].
    intros Hm. apply RegExp_test_matches in Hm. congruence.
Qed.

(** Every failure of [validateField] carries a message that is not
    empty. *)
Lemma validateField_message_nonempty field v e :
  validateField field v = Normal (Invalid e) ->
  truthy (VString e) = true.
Proof.
  unfold validateField, return_if.
  destruct (required_and_blank field v).
  - intros [= <-]. apply required_message_truthy.
  - destruct (negb (truthy v)); [discriminate | ].
    destruct (type field);
      repeat match goal with
             | |- context [ if ?c then _ else _ ] => destruct c
             | |- context [ match RegExp_new ?p with _ => _ end ] =>
                 destruct (RegExp_new p)
             end; intros [= <-]; reflexivity.
Qed.

End ValidationFacts.

(** A value the email rule accepts. *)
Lemma validateField_email_witness :
  let field := Sample.field "email" "Email" email true None in
  let v := VString (lit "jane@example.com") in
  type field = email ∧ truthy v = true ∧ required_and_blank field v = false
  ∧ validateField Sample.engine field v = Normal Valid.
Proof.
  intros field v.
  split; [reflexivity | split; [reflexivity | split; [reflexivity | ]]].
  apply (validateField_email Sample.engine field v); try reflexivity.
  apply RegExp_test_matches. reflexivity.
Defined.

(** C7 as stated fails on the empty value: a field that is not required
    passes it, though the empty string does not match the expression. *)
Lemma validateField_email_counterexample :
  ¬ (∀ (RegExp_new : jsstring -> option (jsstring -> bool)) field v,
       type field = email ->
       (matches emailRegex (ToString v) ->
        validateField RegExp_new field v = Normal Valid)
       ∧ (¬ matches emailRegex (ToString v) ->
          validateField RegExp_new field v
          = Normal (Invalid (lit "Please enter a valid email address")))).
Proof.
  intros H.
  destruct (H Sample.engine (Sample.field "email" "Email" email false None)
              (VString []) eq_refl) as [_ Hfail].
  assert (Hn : ¬ matches emailRegex (ToString (VString []))).
  { intros Hm. apply RegExp_test_matches in Hm. discriminate Hm. }
  specialize (Hfail Hn). discriminate Hfail.
Qed.

(** ** The submit handler of the composer *)

Section SubmitFacts.

Import DynamicForm.

Variable RegExp_new : jsstring -> option (jsstring -> bool).

Local Abbreviation handleSubmit := (handleSubmit RegExp_new).

(** The loop of the handler is the field-by-field run of [validateField]:
    the fallback [|| `${field.label} is required`] is never taken. *)
Lemma check_field_by_validateField d acc field :
  check_field RegExp_new d acc field
  = by_validateField_step RegExp_new d acc field.
Proof.
  unfold check_field, by_validateField_step.
  destruct (validateField _ _ _) as [[ | e] | err] eqn:Hv; try reflexivity.
  now rewrite (validateField_message_nonempty _ _ _ _ Hv).
Qed.

Lemma check_fold_by_validateField cfg d :
  Outcome_fold (check_field RegExp_new d) (fields cfg) (∅, true)
  = by_validateField RegExp_new cfg d.
Proof.
  unfold by_validateField.
  generalize (∅ : gmap jsstring jsstring, true).
  induction (fields cfg) as [ | field l IH ]; intros acc; simpl;
    [reflexivity | ].
  rewrite check_field_by_validateField.
  destruct (by_validateField_step _ _ _ _); [apply IH | reflexivity].
Qed.

(** The run of the handler.  Guarded, it returns at once.  Let in, it
    validates, which may throw; it assigns the error map and then calls
    [formState.updateState], which throws: nothing after that call is
    run. *)
Lemma handleSubmit_run server c ls :
  handleSubmit server c ls
  = if isSubmitting c || disabled c then
      {| completion := Normal tt; component := c; localStorage := ls;
         calls := [] |}
    else
      match by_validateField RegExp_new (config c) (formData c) with
      | Normal checked =>
          {| completion :=
               Abrupt (TypeError "formState.updateState");
             component := set_errors checked.1 c;
             localStorage := ls; calls := [] |}
      | Abrupt e =>
          {| completion := Abrupt e; component := c; localStorage := ls;
             calls := [] |}
      end.
Proof.
  rewrite <- check_fold_by_validateField.
  unfold handleSubmit, DynamicForm.handleSubmit.
  unfold bind at 1. unfold read at 1.
  cbn [completion component localStorage calls].
  destruct (isSubmitting c || disabled c); [reflexivity | ].
  unfold bind at 1.
  destruct (Outcome_fold _ _ _) as [checked | e].
  - cbn [lift ret throw completion component localStorage calls].
    unfold bind at 1. cbn [update completion component localStorage calls].
    unfold bind at 1.
    cbn [formState_updateState throw completion component localStorage calls].
    reflexivity.
  - cbn [lift ret throw completion component localStorage calls].
    reflexivity.
Qed.

Lemma by_validateField_step_required d acc field :
  required field = true -> blank (get_value d (name field)) ->
  by_validateField_step RegExp_new d acc field
  = Normal (assign (name field) (required_message field) acc.1, false).
Proof.
  intros Hreq Hblank. unfold by_validateField_step.
  now rewrite (validateField_required _ _ _ Hreq Hblank).
Qed.

Lemma by_validateField_step_verdict d acc field r :
  acc.2 = false ->
  by_validateField_step RegExp_new d acc field = Normal r -> r.2 = false.
Proof.
  intros H. unfold by_validateField_step.
  destruct (validateField _ _ _) as [[ | e] | err]; intros [= <-];
    [exact H | reflexivity].
Qed.

Lemma by_validateField_fold_verdict d l : ∀ acc r,
  acc.2 = false ->
  Outcome_fold (by_validateField_step RegExp_new d) l acc = Normal r ->
  r.2 = false.
Proof.
  induction l as [ | g l IH ]; intros acc r H; simpl.
  - now intros [= <-].
  - destruct (by_validateField_step _ _ _ g) as [acc' | err] eqn:Hg;
      [ | discriminate].
    apply IH. now apply (by_validateField_step_verdict _ _ _ _ H Hg).
Qed.

(** A blank required field fails the run, when the run comes to an end. *)
Lemma by_validateField_blocked d field l : ∀ acc r,
  field ∈ l -> required field = true -> blank (get_value d (name field)) ->
  Outcome_fold (by_validateField_step RegExp_new d) l acc = Normal r ->
  r.2 = false.
Proof.
  induction l as [ | g l IH ]; intros acc r Hin Hreq Hblank; simpl.
  - now apply elem_of_nil in Hin.
  - apply elem_of_cons in Hin as [<- | Hin].
    + rewrite by_validateField_step_required by assumption.
      now apply by_validateField_fold_verdict.
    + destruct (by_validateField_step _ _ _ g) as [acc' | err];
        [now apply IH | discriminate].
Qed.

Lemma by_validateField_step_other d acc field n r :
  name field ≠ n ->
  by_validateField_step RegExp_new d acc field = Normal r ->
  r.1 !! n = acc.1 !! n.
Proof.
  intros Hne. unfold by_validateField_step, assign.
  destruct (validateField _ _ _) as [[ | e] | err]; intros [= <-];
    [reflexivity | ]. simpl.
  destruct (decide _); [reflexivity | now rewrite lookup_insert_ne].
Qed.

Lemma by_validateField_keeps d field l : ∀ acc r,
  required field = true -> blank (get_value d (name field)) ->
  name field ≠ lit "__proto__" ->
  (∀ g, g ∈ l -> name g = name field -> g = field) ->
  acc.1 !! name field = Some (required_message field) ->
  Outcome_fold (by_validateField_step RegExp_new d) l acc = Normal r ->
  r.1 !! name field = Some (required_message field).
Proof.
  induction l as [ | g l IH ]; intros acc r Hreq Hblank Hn Huniq Hacc; simpl.
  - now intros [= <-].
  - destruct (by_validateField_step _ _ _ g) as [acc' | err] eqn:Hg;
      [ | discriminate].
    apply IH; try assumption.
    + intros g' Hg'. apply Huniq. now apply elem_of_cons; right.
    + destruct (decide (name g = name field)) as [Heq | Hne].
      * rewrite (Huniq g) in Hg by (try apply elem_of_cons; auto).
        rewrite by_validateField_step_required in Hg by assumption.
        injection Hg as <-. simpl. rewrite assign_insert by assumption.
        apply lookup_insert_eq.
      * now rewrite (by_validateField_step_other _ _ _ _ _ Hne Hg).
Qed.

(** A blank required field leaves its message in the error map of the run,
    when its name is its own. *)
Lemma by_validateField_records d field l : ∀ acc r,
  field ∈ l -> required field = true -> blank (get_value d (name field)) ->
  name field ≠ lit "__proto__" ->
  (∀ g, g ∈ l -> name g = name field -> g = field) ->
  Outcome_fold (by_validateField_step RegExp_new d) l acc = Normal r ->
  r.1 !! name field = Some (required_message field).
Proof.
  induction l as [ | g l IH ]; intros acc r Hin Hreq Hblank Hn Huniq; simpl.
  - now apply elem_of_nil in Hin.
  - assert (Hl : ∀ g', g' ∈ l -> name g' = name field -> g' = field).
    { intros g' Hg'. apply Huniq. now apply elem_of_cons; right. }
    apply elem_of_cons in Hin as [<- | Hin].
    + rewrite by_validateField_step_required by assumption.
      apply by_validateField_keeps; try assumption.
      simpl. rewrite assign_insert by assumption. apply lookup_insert_eq.
    + destruct (by_validateField_step _ _ _ g) as [acc' | err];
        [now apply IH | discriminate].
Qed.

(** Whatever the state of the component, the handler stays away from the
    network. *)
Lemma handleSubmit_no_fetch server c ls :
  ∀ url method body, fetch url method body ∉ calls (handleSubmit server c ls).
Proof.
  intros url method body. rewrite handleSubmit_run.
  destruct (isSubmitting c || disabled c); [apply not_elem_of_nil | ].
  destruct (by_validateField _ _ _); apply not_elem_of_nil.
Qed.

(** C3, at fault in the code.  On a composer that is neither disabled nor
    already submitting, with a required field whose value is empty or
    whitespace-only, the handler does not return: it throws, and it makes
    no call, so that no [validationError] is dispatched and no network call
    is issued.  When the validation loop comes to its end, it has found the
    form invalid and the component holds its error map, with "<label> is
    required" under the name of the field (a name of its own, other than
    [__proto__]); the next statement calls [formState.updateState], a member
    the store does not have, and the TypeError leaves the handler there. *)
Theorem handleSubmit_required_blank server c ls field :
  field ∈ fields (config c) ->
  required field = true ->
  blank (get_value (formData c) (name field)) ->
  isSubmitting c = false ->
  disabled c = false ->
  let r := handleSubmit server c ls in
  (∃ e, completion r = Abrupt e)
  ∧ calls r = []
  ∧ ∀ errs ok,
      by_validateField RegExp_new (config c) (formData c) = Normal (errs, ok) ->
      ok = false
      ∧ errors (component r) = errs
      ∧ completion r
        = Abrupt (TypeError "formState.updateState")
      ∧ (name field ≠ lit "__proto__" ->
         (∀ g, g ∈ fields (config c) -> name g = name field -> g = field) ->
         errs !! name field = Some (required_message field)).
Proof.
  intros Hin Hreq Hblank Hsub Hdis r. subst r.
  rewrite handleSubmit_run, Hsub, Hdis. simpl.
  pose proof (by_validateField_blocked (formData c) field
                (fields (config c)) (∅, true)) as Hb.
  pose proof (by_validateField_records (formData c) field
                (fields (config c)) (∅, true)) as Hr.
  unfold by_validateField in *.
  destruct (Outcome_fold _ _ _) as [checked | e].
  - split; [eauto | split; [reflexivity | ]].
    intros errs ok [= ->]. simpl.
    split; [ | split; [reflexivity | split; [reflexivity | ]]].
    + apply (Hb (errs, ok) Hin Hreq Hblank eq_refl).
    + intros Hn Huniq.
      apply (Hr (errs, ok) Hin Hreq Hblank Hn Huniq eq_refl).
  - split; [eauto | split; [reflexivity | ]]. discriminate.
Qed.

End SubmitFacts.

(** The scenario of the specification: one required text field [name],
    submitted empty. *)
Lemma handleSubmit_required_blank_witness :
  let field := Sample.field "name" "Name" text true None in
  let c := Sample.component (Sample.form [field] None None) false
             {[ lit "name" := VString [] ]} in
  let server := fun _ => DynamicForm.Rejected [] in
  let r := DynamicForm.handleSubmit Sample.engine server c ∅ in
  DynamicForm.errors (DynamicForm.component r)
  = {[ lit "name" := lit "Name is required" ]}
  ∧ DynamicForm.completion r
    = Abrupt (TypeError "formState.updateState")
  ∧ DynamicForm.calls r = [].
Proof.
  intros field c server r.
  destruct (handleSubmit_required_blank Sample.engine server c ∅ field)
    as (_ & Hcalls & H).
  - apply list_elem_of_singleton. reflexivity.
  - reflexivity.
  - right. constructor.
  - reflexivity.
  - reflexivity.
  - destruct (H {[ lit "name" := lit "Name is required" ]} false)
      as (_ & He & Hc & _); [vm_compute; reflexivity | ].
    split; [exact He | split; [exact Hc | exact Hcalls]].
Defined.

(** ** The form state store *)

(** C9.  [setFieldError], [clearFieldError] and [clearErrors] rewrite the
    error map of the state and nothing else: [data], [config], [sessionId],
    [isSubmitting], [isSubmitted] and [lastSaved] are as before, and so are
    the other stores and the local storage. *)
Theorem error_mutators_frame (w : Stores) (fieldName message : jsstring) :
  formActions.setFieldError fieldName message w
  = formState_update
      (formActions.with_errors (<[fieldName := message]> (errors (formState w))))
      w
  ∧ formActions.clearFieldError fieldName w
    = formState_update
        (formActions.with_errors (delete fieldName (errors (formState w)))) w
  ∧ formActions.clearErrors w
    = formState_update (formActions.with_errors ∅) w
  ∧ ∀ errs,
      let w' := formState_update (formActions.with_errors errs) w in
      errors (formState w') = errs
      ∧ data (formState w') = data (formState w)
      ∧ config (formState w') = config (formState w)
      ∧ sessionId (formState w') = sessionId (formState w)
      ∧ isSubmitting (formState w') = isSubmitting (formState w)
      ∧ isSubmitted (formState w') = isSubmitted (formState w)
      ∧ lastSaved (formState w') = lastSaved (formState w)
      ∧ formConfig w' = formConfig w
      ∧ runtime w' = runtime w.
Proof.
  repeat split.
Qed.

Lemma updateField_formState now fieldName v w :
  formState (formActions.updateField now fieldName v w)
  = {| config := config (formState w);
       data := <[fieldName := v]> (data (formState w));
       errors := delete fieldName (errors (formState w));
       isSubmitting := isSubmitting (formState w);
       isSubmitted := isSubmitted (formState w);
       sessionId := sessionId (formState w);
       lastSaved := lastSaved (formState w) |}.
Proof.
  unfold formActions.updateField.
  destruct (config (formState w)) as [cfg | ]; [ | reflexivity].
  now destruct (browser (runtime w) && auto_save_on (Some cfg) && true).
Qed.

Lemma updateField_formConfig now fieldName v w :
  formConfig (formActions.updateField now fieldName v w) = formConfig w.
Proof.
  unfold formActions.updateField.
  destruct (config (formState w)) as [cfg | ]; [ | reflexivity].
  now destruct (browser (runtime w) && auto_save_on (Some cfg) && true).
Qed.

Lemma storage_set_browser key d rt :
  browser (storage_set key d rt) = browser rt.
Proof. now destruct rt. Qed.

Lemma storage_set_twice key d rt :
  storage_set key d (storage_set key d rt) = storage_set key d rt.
Proof.
  destruct rt as [ | ls ]; simpl; [reflexivity | ].
  now rewrite insert_insert_eq.
Qed.

Lemma updateField_runtime now fieldName v w :
  runtime (formActions.updateField now fieldName v w)
  = match config (formState w) with
    | Some cfg =>
        if browser (runtime w) && auto_save_on (Some cfg)
        then storage_set (storage_key (id cfg))
               (<[fieldName := v]> (data (formState w))) (runtime w)
        else runtime w
    | None => runtime w
    end.
Proof.
  unfold formActions.updateField.
  destruct (config (formState w)) as [cfg | ]; [ | reflexivity].
  rewrite andb_true_r.
  now destruct (browser (runtime w) && auto_save_on (Some cfg)).
Qed.

(** A second identical call changes neither the state nor the storage. *)
Lemma updateField_twice t1 t2 fieldName v w :
  let w1 := formActions.updateField t1 fieldName v w in
  let w2 := formActions.updateField t2 fieldName v w1 in
  formState w2 = formState w1 ∧ runtime w2 = runtime w1.
Proof.
  intros w1 w2. subst w2. split.
  - rewrite (updateField_formState t2). subst w1.
    rewrite !updateField_formState. simpl.
    now rewrite insert_insert_eq, delete_delete_eq.
  - rewrite (updateField_runtime t2). subst w1.
    rewrite !updateField_formState, !updateField_runtime. simpl.
    destruct (config (formState w)) as [cfg | ]; [ | reflexivity].
    destruct (browser (runtime w) && auto_save_on (Some cfg)) eqn:Hb.
    + rewrite storage_set_browser, Hb, insert_insert_eq.
      apply storage_set_twice.
    + now rewrite Hb.
Qed.

(** C8.  [updateField] is idempotent: after [N] consecutive identical calls
    ([N >= 1]: the calls at the clock readings [t :: ts]) the FormState is
    the one a single call leaves, whatever the clock readings; the saved
    snapshot is the same as well. *)
Theorem updateField_idempotent (t : Date) (ts : list Date)
    (fieldName : jsstring) (v : value) (w : Stores) :
  formState (updateField_repeatedly (t :: ts) fieldName v w)
  = formState (formActions.updateField t fieldName v w)
  ∧ runtime (updateField_repeatedly (t :: ts) fieldName v w)
    = runtime (formActions.updateField t fieldName v w).
Proof.
  unfold updateField_repeatedly. simpl.
  revert t w. induction ts as [ | t' ts IH ]; intros t w; simpl.
  - split; reflexivity.
  - destruct (IH t' (formActions.updateField t fieldName v w)) as [Hs Hr].
    destruct (updateField_twice t t' fieldName v w) as [Hs' Hr'].
    split; [now rewrite Hs, Hs' | now rewrite Hr, Hr'].
Qed.

(** [initialize] puts the configuration in both stores. *)
Lemma initialize_both_stores now suffix cfg w :
  formConfig (formActions.initialize now suffix cfg w) = Some cfg
  ∧ config (formState (formActions.initialize now suffix cfg w)) = Some cfg.
Proof.
  unfold formActions.initialize. simpl.
  destruct (browser (runtime w) && auto_save_on (Some cfg)); [ | auto].
  destruct (storage_get _ _); auto.
Qed.

(** C2, at fault in the code.  In the browser [setSubmitted] sets
    [isSubmitted], then raises a ReferenceError on the unbound [state]; the
    persisted entry of the active configuration is still there. *)
Theorem setSubmitted_in_browser (w : Stores) ls cfg item :
  runtime w = Browser ls ->
  config (formState w) = Some cfg ->
  ls !! storage_key (id cfg) = Some item ->
  isSubmitted (formState (formActions.setSubmitted w).1) = true
  ∧ (formActions.setSubmitted w).2 = Throws (ReferenceError "state")
  ∧ persisted (storage_key (id cfg)) (runtime (formActions.setSubmitted w).1)
    = Some item.
Proof.
  intros Hrt Hcfg Hitem. unfold formActions.setSubmitted. simpl.
  rewrite Hrt. simpl. repeat split. rewrite Hrt. exact Hitem.
Qed.

Lemma setSubmitted_in_browser_witness :
  let cfg := Sample.form [] None None in
  let item := Serialized {[ lit "name" := VString (lit "Jane") ]} in
  let ls : gmap jsstring StorageItem := {[ storage_key (id cfg) := item ]} in
  let w := Sample.stores (Some cfg) ∅ (lit "session_1_a") (Browser ls) in
  (formActions.setSubmitted w).2 = Throws (ReferenceError "state")
  ∧ persisted (lit "form_f1_data") (runtime (formActions.setSubmitted w).1)
    = Some item.
Proof.
  intros cfg item ls w.
  destruct (setSubmitted_in_browser w ls cfg item) as (_ & Ht & Hp).
  - reflexivity.
  - reflexivity.
  - apply lookup_singleton_eq.
  - split; [exact Ht | exact Hp].
Defined.

(** ** Session identifiers *)

Lemma lit_inj s1 s2 : lit s1 = lit s2 -> s1 = s2.
Proof.
  unfold lit. intros H.
  apply (f_equal (map ascii_of_N)) in H.
  rewrite !map_map in H.
  rewrite !(map_ext _ (fun a => a) ascii_N_embedding), !map_id in H.
  apply (f_equal string_of_list_ascii) in H.
  now rewrite !string_of_list_ascii_of_string in H.
Qed.

Lemma string_of_uint_digits d :
  Forall (fun c => is_digit c = true) (lit (NilEmpty.string_of_uint d)).
Proof.
  induction d; simpl; constructor; auto.
Qed.

Lemma Date_toString_digits n :
  Forall (fun c => is_digit c = true) (Date_toString n).
Proof.
  unfold Date_toString, NilZero.string_of_uint.
  destruct (N.to_uint n); try apply string_of_uint_digits.
  repeat constructor.
Qed.

Lemma Date_toString_inj n1 n2 :
  Date_toString n1 = Date_toString n2 -> n1 = n2.
Proof.
  unfold Date_toString. intros H. apply lit_inj in H.
  assert (Hnn : ∀ n, N.to_uint n ≠ Decimal.Nil).
  { intros [ | p ]; [discriminate | apply Unsigned.to_uint_nonnil]. }
  apply (f_equal NilZero.uint_of_string) in H.
  rewrite !NilZero.usu in H by apply Hnn.
  injection H as H. now apply DecimalN.Unsigned.to_uint_inj.
Qed.

Lemma digits_then_underscore d1 : ∀ d2 s1 s2,
  Forall (fun c => is_digit c = true) d1 ->
  Forall (fun c => is_digit c = true) d2 ->
  d1 ++ 95%N :: s1 = d2 ++ 95%N :: s2 -> d1 = d2 ∧ s1 = s2.
Proof.
  induction d1 as [ | c d1 IH ]; intros d2 s1 s2 H1 H2 Heq;
    destruct d2 as [ | c' d2 ]; simpl in Heq.
  - injection Heq as ->. auto.
  - injection Heq as <- _. inversion H2; discriminate.
  - injection Heq as -> _. inversion H1; discriminate.
  - injection Heq as -> Heq. inversion H1; inversion H2; subst.
    destruct (IH d2 s1 s2) as [-> ->]; auto.
Qed.

(** Two identifiers agree only when the clock reading and the random text
    both do. *)
Lemma generateSessionId_inj n1 s1 n2 s2 :
  generateSessionId n1 s1 = generateSessionId n2 s2 -> n1 = n2 ∧ s1 = s2.
Proof.
  unfold generateSessionId. intros H.
  apply app_inv_head in H.
  change (lit "_") with [95%N] in H. simpl in H.
  apply digits_then_underscore in H; try apply Date_toString_digits.
  destruct H as [H ->]. split; [now apply Date_toString_inj | reflexivity].
Qed.

(** C5, as amended.  With a configuration in the [formConfig] store,
    [reset] empties [data] and [errors], installs the identifier made from
    the clock reading and the random text of the call, and leaves no
    snapshot under [form_<id>_data]; the identifier differs from a previous
    one whenever the clock reading or the random text differs from those
    that made the previous one.  With no configuration, [reset] changes
    nothing. *)
Theorem reset_spec (now : N) (suffix : jsstring) (w : Stores) :
  (∀ cfg, formConfig w = Some cfg ->
     let w' := formActions.reset now suffix w in
     data (formState w') = ∅
     ∧ errors (formState w') = ∅
     ∧ sessionId (formState w') = generateSessionId now suffix
     ∧ persisted (storage_key (id cfg)) (runtime w') = None
     ∧ ∀ now0 suffix0,
         sessionId (formState w) = generateSessionId now0 suffix0 ->
         now0 ≠ now ∨ suffix0 ≠ suffix ->
         sessionId (formState w') ≠ sessionId (formState w))
  ∧ (formConfig w = None -> formActions.reset now suffix w = w).
Proof.
  split.
  - intros cfg Hcfg w'.
    assert (Hid : sessionId (formState w') = generateSessionId now suffix).
    { subst w'. unfold formActions.reset. rewrite Hcfg. simpl.
      now destruct (runtime w). }
    split; [ | split; [ | split; [exact Hid | split]]].
    + subst w'. unfold formActions.reset. rewrite Hcfg. simpl.
      now destruct (runtime w).
    + subst w'. unfold formActions.reset. rewrite Hcfg. simpl.
      now destruct (runtime w).
    + subst w'. unfold formActions.reset. rewrite Hcfg. simpl.
      destruct (runtime w) as [ | ls ] eqn:Hrt; simpl; rewrite ?Hrt; simpl;
        [reflexivity | ].
      apply lookup_delete_eq.
    + intros now0 suffix0 Hold Hdiff Heq.
      rewrite Hid, Hold in Heq. apply generateSessionId_inj in Heq.
      destruct Heq, Hdiff; congruence.
  - intros Hcfg. unfold formActions.reset. now rewrite Hcfg.
Qed.

Lemma reset_spec_witness :
  let cfg := Sample.form [] None None in
  let ls : gmap jsstring StorageItem :=
    {[ lit "form_f1_data" := Serialized {[ lit "name" := VString (lit "Jane") ]} ]} in
  let w := Sample.stores (Some cfg) {[ lit "name" := VString (lit "Jane") ]}
             (generateSessionId 1000 (lit "k3x9")) (Browser ls) in
  let w' := formActions.reset 1001 (lit "k3x9") w in
  data (formState w') = ∅
  ∧ persisted (lit "form_f1_data") (runtime w') = None
  ∧ sessionId (formState w') ≠ sessionId (formState w).
Proof.
  intros cfg ls w w'.
  destruct (reset_spec 1001 (lit "k3x9") w) as [H _].
  destruct (H cfg eq_refl) as (Hd & _ & _ & Hp & Hs).
  split; [exact Hd | split; [exact Hp | ]].
  apply (Hs 1000%N (lit "k3x9")); [reflexivity | left; discriminate].
Defined.

(** C5 as stated fails when the clock reading and the random text repeat:
    the identifier is the previous one. *)
Lemma reset_sessionId_counterexample :
  ¬ (∀ now suffix w cfg,
       formConfig w = Some cfg ->
       sessionId (formState (formActions.reset now suffix w))
       ≠ sessionId (formState w)).
Proof.
  intros H.
  apply (H 1000%N (lit "k3x9")
           (Sample.stores (Some (Sample.form [] None None)) ∅
              (generateSessionId 1000 (lit "k3x9")) Server)
           (Sample.form [] None None) eq_refl).
  reflexivity.
Qed.

(** ** [validate] against the validation utility *)

(** C1, at fault in the code.  [validate] has no pattern check: on a text or
    textarea field whose only rule is a pattern that the value does not
    match, it installs an empty error map and answers [true], where
    [validateField], run over the same field, fails with "Invalid format". *)
Theorem validate_skips_pattern
    (RegExp_new : jsstring -> option (jsstring -> bool))
    (w : Stores) (cfg : FormConfig) (field : FormField) (p : jsstring)
    (regex : jsstring -> bool) :
  config (formState w) = Some cfg ->
  fields cfg = [field] ->
  type field = text ∨ type field = textarea ->
  required field = false ->
  validation field = Some {| min := None; max := None; pattern := Some p |} ->
  p ≠ [] ->
  truthy (get_value (data (formState w)) (name field)) = true ->
  RegExp_new p = Some regex ->
  regex (ToString (get_value (data (formState w)) (name field))) = false ->
  ((formActions.validate w).1 = true
   ∧ errors (formState (formActions.validate w).2) = ∅)
  ∧ (verdict_by_validateField RegExp_new cfg (data (formState w))
     = Normal false
     ∧ errors_by_validateField RegExp_new cfg (data (formState w))
       = Normal (assign (name field) (lit "Invalid format") ∅)).
Proof.
  intros Hcfg Hfields Htype Hreq Hval Hp Hv Hnew Htest.
  assert (Hpt : truthy (VString p) = true) by (destruct p; [congruence | reflexivity]).
  split.
  - unfold formActions.validate. rewrite Hcfg, Hfields. simpl.
    unfold formActions.validate_field, required_and_blank.
    unfold validation_min, validation_max.
    rewrite Hreq, Hv, Hval. simpl.
    destruct Htype as [-> | ->]; simpl; auto.
  - unfold verdict_by_validateField, errors_by_validateField,
      by_validateField.
    rewrite Hfields. simpl. unfold by_validateField_step.
    assert (Hvf : validateField RegExp_new field
                    (get_value (data (formState w)) (name field))
                  = Normal (Invalid (lit "Invalid format"))).
    { unfold validateField, required_and_blank.
      unfold validation_min, validation_max, validation_pattern.
      rewrite Hreq, Hv, Hval. simpl. simpl in Hpt. rewrite Hpt, Hnew, Htest.
      destruct Htype as [-> | ->]; reflexivity. }
    rewrite Hvf. simpl. auto.
Qed.

(** The failing input: one optional text field [zip] with the pattern
    [^[0-9]+$], holding "abc". *)
Lemma validate_skips_pattern_witness :
  let field :=
    Sample.field "zip" "Zip" text false
      (Some {| min := None; max := None;
               pattern := Some Sample.digits_pattern |}) in
  let cfg := Sample.form [field] None None in
  let d : gmap jsstring value := {[ lit "zip" := VString (lit "abc") ]} in
  let w := Sample.stores (Some cfg) d (lit "session_1_a") Server in
  ((formActions.validate w).1 = true
   ∧ errors (formState (formActions.validate w).2) = ∅)
  ∧ (verdict_by_validateField Sample.engine cfg d = Normal false
     ∧ errors_by_validateField Sample.engine cfg d
       = Normal {[ lit "zip" := lit "Invalid format" ]}).
Proof.
  intros field cfg d w.
  apply (validate_skips_pattern Sample.engine w cfg field Sample.digits_pattern
           (RegExp_test (RPlus (RClass is_digit)))).
  - reflexivity.
  - reflexivity.
  - left. reflexivity.
  - reflexivity.
  - reflexivity.
  - discriminate.
  - reflexivity.
  - reflexivity.
  - reflexivity.
Defined.

(** [validate] also goes on after a failed lower bound: with the bounds
    crossed, it reports the upper one, where [validateField] stops at the
    lower one. *)
Lemma validate_reports_last_bound :
  let field :=
    Sample.field "note" "Note" text false
      (Some {| min := Some 5; max := Some 3; pattern := None |}) in
  let cfg := Sample.form [field] None None in
  let d : gmap jsstring value := {[ lit "note" := VString (lit "abcd") ]} in
  let w := Sample.stores (Some cfg) d (lit "session_1_a") Server in
  errors (formState (formActions.validate w).2) !! lit "note"
  = Some (lit "Must be no more than 3 characters")
  ∧ validateField Sample.engine field (VString (lit "abcd"))
    = Normal (Invalid (lit "Must be at least 5 characters")).
Proof.
  split; reflexivity.
Qed.

(** ** The submission endpoint *)

(** A data object with a member of its own, other than [__proto__], makes
    the record schema throw. *)
Lemma zod_record_throws members k v :
  (k, v) ∈ members ->
  k ≠ lit "__proto__" ->
  SubmitEndpoint.zod_record (Some (JObject members))
  = SubmitEndpoint.record_throws.
Proof.
  intros Hin Hk. unfold SubmitEndpoint.zod_record.
  destruct (forallb _ members) eqn:Hall; [ | reflexivity].
  pose proof (proj1 (List.forallb_forall _ members) Hall (k, v)) as H.
  apply bool_decide_eq_true_1 in H; [contradiction | ].
  now apply list_elem_of_In.
Qed.

(** C4, at fault in the code.  A POST whose JSON body carries a [data]
    object with a member is answered with 500, whatever the rest of the
    body and whatever the stored configurations: the schema is written as
    [z.record(z.any())], which under the Zod 4 of the project leaves the
    value schema undefined, and [parse] throws a TypeError that the [catch]
    block sends to [handleApiError].  Nothing is written. *)
Theorem POST_outcomes (now : N) (suffix : jsstring)
    (db : SubmitEndpoint.Database) (o members : list (jsstring * json))
    (k : jsstring) (v : json) :
  SubmitEndpoint.member (lit "data") o = Some (JObject members) ->
  (k, v) ∈ members ->
  k ≠ lit "__proto__" ->
  let r := SubmitEndpoint.POST now suffix (SubmitEndpoint.Json (JObject o)) db in
  SubmitEndpoint.status r.1 = 500%nat
  ∧ SubmitEndpoint.success (SubmitEndpoint.body r.1) = Some false
  ∧ SubmitEndpoint.data (SubmitEndpoint.body r.1) = None
  ∧ r.2 = db.
Proof.
  intros Hdata Hin Hk r. subst r.
  unfold SubmitEndpoint.POST, SubmitEndpoint.FormSubmissionSchema_parse.
  rewrite Hdata, (zod_record_throws members k v Hin Hk).
  repeat split.
Qed.

(** The scenario of the specification: the payload [f1] / [ABC123] with
    [data: {name: "Jane"}] against the stored configuration [f1] /
    [ABC123]. *)
Lemma POST_outcomes_witness :
  let payload :=
    JObject [(lit "form_id", JString (lit "f1"));
             (lit "org_code", JString (lit "ABC123"));
             (lit "data", JObject [(lit "name", JString (lit "Jane"))])] in
  let db :=
    {| SubmitEndpoint.org_custom_forms := [Sample.form [] None None];
       SubmitEndpoint.form_sessions := [];
       SubmitEndpoint.form_analytics := [] |} in
  SubmitEndpoint.getFormByOrgCode (lit "ABC123") db
  = Some (Sample.form [] None None)
  ∧ SubmitEndpoint.status
      (SubmitEndpoint.POST 1700000000000 (lit "k3x9q2m1z")
         (SubmitEndpoint.Json payload) db).1 = 500%nat.
Proof.
  intros payload db. split; [reflexivity | ].
  refine (proj1 (POST_outcomes 1700000000000 (lit "k3x9q2m1z") db _
                   [(lit "name", JString (lit "Jane"))] (lit "name")
                   (JString (lit "Jane")) _ _ _)).
  - reflexivity.
  - apply list_elem_of_singleton. reflexivity.
  - discriminate.
Defined.

(** ** The layout of the composer *)

Section Layout.

Import DynamicForm.

Local Open Scope nat_scope.

Lemma column_height_succ c k n :
  0 < c -> k < c ->
  column_height c k (S n)
  = column_height c k n + (if k =? n mod c then 1 else 0).
Proof.
  intros Hc Hk. unfold column_height.
  pose proof (Nat.div_mod_eq n c) as Hn.
  pose proof (Nat.mod_upper_bound n c ltac:(lia)) as Hm.
  destruct (decide (S (n mod c) = c)) as [Heq | Hne].
  - assert (Hd : S n / c = S (n / c)).
    { symmetry. apply (Nat.div_unique _ _ _ 0); lia. }
    assert (Hr : S n mod c = 0).
    { symmetry. apply (Nat.mod_unique _ _ (S (n / c))); lia. }
    rewrite Hd, Hr.
    destruct (Nat.ltb_spec k 0), (Nat.ltb_spec k (n mod c)),
      (Nat.eqb_spec k (n mod c)); lia.
  - assert (Hd : S n / c = n / c).
    { symmetry. apply (Nat.div_unique _ _ _ (S (n mod c))); lia. }
    assert (Hr : S n mod c = S (n mod c)).
    { symmetry. apply (Nat.mod_unique _ _ (n / c)); lia. }
    rewrite Hd, Hr.
    destruct (Nat.ltb_spec k (S (n mod c))), (Nat.ltb_spec k (n mod c)),
      (Nat.eqb_spec k (n mod c)); lia.
Qed.

Lemma column_height_own c n :
  0 < c -> column_height c (n mod c) n = n / c.
Proof.
  intros Hc. unfold column_height. rewrite Nat.ltb_irrefl. lia.
Qed.

Lemma layout_columns_pos cfg : 0 < layout_columns cfg.
Proof.
  unfold layout_columns. destruct (layout cfg ≫= columns) as [[ | n] | ]; lia.
Qed.

Lemma dealt_start c : dealt c 0 (replicate c []).
Proof.
  split; [apply length_replicate | ].
  intros k col Hk. apply lookup_replicate in Hk as [-> Hk].
  unfold column_height. destruct c; [lia | ].
  rewrite Nat.Div0.div_0_l, Nat.Div0.mod_0_l. reflexivity.
Qed.

Lemma place_field_dealt c n groups field :
  0 < c -> dealt c n groups -> dealt c (S n) (place_field c groups field n).
Proof.
  intros Hc [Hlen Hcols]. unfold place_field. split.
  - now rewrite length_alter.
  - intros k col Hk.
    assert (Hkc : k < c).
    { apply lookup_lt_Some in Hk. now rewrite length_alter, Hlen in Hk. }
    rewrite column_height_succ by assumption.
    rewrite list_lookup_alter in Hk.
    destruct (decide (n mod c = k)) as [<- | Hne].
    + destruct (groups !! (n mod c)) as [old | ] eqn:Hold; [ | discriminate].
      injection Hk as <-. rewrite length_app, (Hcols _ _ Hold).
      now rewrite Nat.eqb_refl.
    + rewrite (Hcols _ _ Hk).
      destruct (Nat.eqb_spec k (n mod c)); [congruence | lia].
Qed.

Lemma forEach_from_dealt c l : ∀ n groups,
  0 < c -> dealt c n groups ->
  dealt c (n + length l) (forEach_from (place_field c) l n groups).
Proof.
  induction l as [ | field l IH ]; intros n groups Hc Hd; simpl.
  - now rewrite Nat.add_0_r.
  - replace (n + S (length l)) with (S n + length l) by lia.
    apply IH; [assumption | now apply place_field_dealt].
Qed.

Lemma place_field_keeps c n groups field k col j f :
  groups !! k = Some col -> col !! j = Some f ->
  ∃ col', place_field c groups field n !! k = Some col' ∧ col' !! j = Some f.
Proof.
  intros Hk Hj. unfold place_field. rewrite list_lookup_alter.
  destruct (decide (n mod c = k)) as [-> | Hne].
  - rewrite Hk. simpl. eexists. split; [reflexivity | ].
    rewrite lookup_app_l; [exact Hj | now apply lookup_lt_Some in Hj].
  - eauto.
Qed.

Lemma forEach_from_keeps c l : ∀ n groups k col j f,
  groups !! k = Some col -> col !! j = Some f ->
  ∃ col',
    forEach_from (place_field c) l n groups !! k = Some col'
    ∧ col' !! j = Some f.
Proof.
  induction l as [ | field l IH ]; intros n groups k col j f Hk Hj; simpl.
  - eauto.
  - destruct (place_field_keeps c n groups field k col j f Hk Hj)
      as (col' & Hk' & Hj').
    now apply (IH _ _ _ col').
Qed.

Lemma forEach_from_lookup c l : ∀ n groups i f,
  0 < c -> dealt c n groups -> l !! i = Some f ->
  ∃ col,
    forEach_from (place_field c) l n groups !! ((n + i) mod c) = Some col
    ∧ col !! ((n + i) / c) = Some f.
Proof.
  induction l as [ | field l IH ]; intros n groups i f Hc Hd Hi;
    [discriminate | ].
  destruct i as [ | i ]; simpl in Hi |- *.
  - injection Hi as ->. rewrite Nat.add_0_r.
    destruct Hd as [Hlen Hcols].
    assert (Hlt : n mod c < length groups).
    { rewrite Hlen. apply Nat.mod_upper_bound. lia. }
    destruct (lookup_lt_is_Some_2 _ _ Hlt) as [old Hold].
    apply (forEach_from_keeps c l (S n) _ (n mod c) (old ++ [f])).
    + unfold place_field. rewrite list_lookup_alter.
      rewrite decide_True by reflexivity. now rewrite Hold.
    + rewrite <- (column_height_own c n Hc), <- (Hcols _ _ Hold).
      apply list_lookup_middle. reflexivity.
  - replace (n + S i) with (S n + i) by lia.
    apply IH; [assumption | now apply place_field_dealt | assumption].
Qed.

Lemma place_field_concat c n groups field :
  0 < c -> length groups = c ->
  concat (place_field c groups field n) ≡ₚ field :: concat groups.
Proof.
  intros Hc Hlen. unfold place_field.
  assert (Hlt : n mod c < length groups).
  { rewrite Hlen. apply Nat.mod_upper_bound. lia. }
  revert Hlt. generalize (n mod c). clear Hlen.
  induction groups as [ | g groups IH ]; intros k Hlt; simpl in Hlt;
    [lia | ].
  destruct k as [ | k ]; simpl.
  - rewrite <- app_assoc. simpl.
    rewrite <- Permutation_middle. reflexivity.
  - change (list_alter ?f k groups) with (alter f k groups).
    rewrite IH by lia. rewrite Permutation_middle. reflexivity.
Qed.

Lemma forEach_from_concat c l : ∀ n groups,
  0 < c -> length groups = c ->
  concat (forEach_from (place_field c) l n groups) ≡ₚ concat groups ++ l.
Proof.
  induction l as [ | field l IH ]; intros n groups Hc Hlen; simpl.
  - now rewrite app_nil_r.
  - rewrite IH; [ | assumption | unfold place_field; now rewrite length_alter].
    rewrite place_field_concat by assumption.
    rewrite <- Permutation_middle. reflexivity.
Qed.

Lemma concat_replicate_nil {A} n : concat (replicate n (@nil A)) = [].
Proof. induction n; simpl; auto. Qed.

Lemma sort_insert_perm {A} (compare : A -> A -> Z) x l :
  sort_insert compare x l ≡ₚ x :: l.
Proof.
  induction l as [ | y l IH ]; simpl; [reflexivity | ].
  destruct (compare x y <=? 0)%Z; [reflexivity | ].
  rewrite IH. apply perm_swap.
Qed.

Lemma Array_sort_perm {A} (compare : A -> A -> Z) l :
  Array_sort compare l ≡ₚ l.
Proof.
  unfold Array_sort. induction l as [ | x l IH ]; simpl; [reflexivity | ].
  now rewrite sort_insert_perm, IH.
Qed.

End Layout.

Section LayoutOrder.

Import DynamicForm.

Lemma indexOf_middle pre x rest :
  x ∉ pre -> indexOf (pre ++ x :: rest) x = Z.of_nat (length pre).
Proof.
  induction pre as [ | y pre IH ]; intros Hx; simpl.
  - now rewrite decide_True.
  - apply not_elem_of_cons in Hx as [Hne Hx].
    rewrite decide_False by congruence. rewrite (IH Hx).
    destruct (Z.ltb_spec (Z.of_nat (length pre)) 0); lia.
Qed.

Lemma Array_sort_in_order (order : list jsstring) suf : ∀ pre,
  order = map name (pre ++ suf) -> NoDup order ->
  Array_sort (compare_fields order) suf = suf.
Proof.
  induction suf as [ | x suf IH ]; intros pre Horder Hnd; [reflexivity | ].
  unfold Array_sort in *. simpl.
  rewrite (IH (pre ++ [x])) by (rewrite <- ?app_assoc; assumption).
  destruct suf as [ | y suf ]; [reflexivity | ]. simpl.
  unfold compare_fields.
  assert (Hx : indexOf order (name x) = Z.of_nat (length (map name pre))).
  { rewrite Horder, map_app. simpl. apply indexOf_middle.
    rewrite Horder, map_app in Hnd. simpl in Hnd.
    apply NoDup_app in Hnd as (_ & Hd & _). intros Hin.
    apply (Hd _ Hin). now left. }
  assert (Hy : indexOf order (name y)
               = Z.of_nat (length (map name pre ++ [name x]))).
  { rewrite Horder, map_app. simpl.
    change (map name pre ++ name x :: name y :: map name suf)
      with (map name pre ++ [name x] ++ name y :: map name suf).
    rewrite app_assoc. apply indexOf_middle.
    rewrite Horder, map_app in Hnd. simpl in Hnd.
    change (map name pre ++ name x :: name y :: map name suf)
      with (map name pre ++ [name x] ++ name y :: map name suf) in Hnd.
    rewrite app_assoc in Hnd.
    apply NoDup_app in Hnd as (_ & Hd & _). intros Hin.
    apply (Hd _ Hin). now left. }
  rewrite Hx, Hy, length_app. simpl.
  destruct (Z.leb_spec (Z.of_nat (length (map name pre))
                        - Z.of_nat (length (map name pre) + 1)) 0);
    [reflexivity | lia].
Qed.

(** With no [fieldOrder] and distinct names, sorting leaves the fields in
    the order of the configuration: the default order. *)
Lemma sortedFields_default cfg :
  layout cfg ≫= fieldOrder = None ->
  NoDup (map name (fields cfg)) ->
  sortedFields cfg = fields cfg.
Proof.
  intros Hlay Hnd. unfold sortedFields, layout_fieldOrder. rewrite Hlay.
  simpl. now apply (Array_sort_in_order _ _ []).
Qed.

(** C6.  The composer makes as many columns as the layout counts, and
    field [i] of the sorted order sits in column [i mod columns], at row
    [i / columns].  With three columns and seven fields, the columns hold
    the fields 0, 3, 6, the fields 1, 4 and the fields 2, 5 of the sorted
    order, which is the order of the configuration when no [fieldOrder] is
    given and the names are distinct. *)
Theorem getFieldLayout_round_robin (c : Component) :
  length (getFieldLayout c) = layout_columns (config c)
  ∧ (∀ i f,
       sortedFields (config c) !! i = Some f ->
       ∃ col,
         getFieldLayout c !! (i mod layout_columns (config c))%nat = Some col
         ∧ col !! (i / layout_columns (config c))%nat = Some f)
  ∧ (∀ f0 f1 f2 f3 f4 f5 f6,
       sortedFields (config c) = [f0; f1; f2; f3; f4; f5; f6] ->
       layout_columns (config c) = 3%nat ->
       getFieldLayout c = [[f0; f3; f6]; [f1; f4]; [f2; f5]])
  ∧ (∀ f0 f1 f2 f3 f4 f5 f6,
       fields (config c) = [f0; f1; f2; f3; f4; f5; f6] ->
       layout (config c) ≫= fieldOrder = None ->
       NoDup (map name (fields (config c))) ->
       layout_columns (config c) = 3%nat ->
       getFieldLayout c = [[f0; f3; f6]; [f1; f4]; [f2; f5]]).
Proof.
  pose proof (layout_columns_pos (config c)) as Hc.
  split; [ | split; [ | split]].
  - unfold getFieldLayout, Array_forEach.
    apply (forEach_from_dealt _ (sortedFields (config c)) 0%nat); [exact Hc | ].
    apply dealt_start.
  - intros i f Hi. unfold getFieldLayout, Array_forEach.
    apply (forEach_from_lookup _ _ 0%nat _ i f Hc); [ | exact Hi].
    apply dealt_start.
  - intros f0 f1 f2 f3 f4 f5 f6 Hs H3.
    unfold getFieldLayout. rewrite Hs, H3. reflexivity.
  - intros f0 f1 f2 f3 f4 f5 f6 Hf Hlay Hnd H3.
    unfold getFieldLayout.
    rewrite (sortedFields_default _ Hlay Hnd), Hf, H3. reflexivity.
Qed.

(** C10.  The columns partition the fields of the configuration: read one
    after the other they are a rearrangement of [config.fields], each field
    placed once; and no column is more than one field longer than
    another. *)
Theorem getFieldLayout_partition (c : Component) :
  concat (getFieldLayout c) ≡ₚ fields (config c)
  ∧ (NoDup (fields (config c)) -> NoDup (concat (getFieldLayout c)))
  ∧ (∀ k k' col col',
       getFieldLayout c !! k = Some col ->
       getFieldLayout c !! k' = Some col' ->
       (length col <= length col' + 1)%nat).
Proof.
  pose proof (layout_columns_pos (config c)) as Hc.
  assert (Hperm : concat (getFieldLayout c) ≡ₚ fields (config c)).
  { unfold getFieldLayout, Array_forEach.
    rewrite forEach_from_concat; [ | exact Hc | apply length_replicate].
    rewrite concat_replicate_nil. simpl. apply Array_sort_perm. }
  split; [exact Hperm | split].
  - intros Hnd. now rewrite Hperm.
  - intros k k' col col' Hk Hk'.
    destruct (forEach_from_dealt (layout_columns (config c))
                (sortedFields (config c)) 0%nat
                (replicate (layout_columns (config c)) []) Hc
                (dealt_start _)) as [_ Hh].
    unfold getFieldLayout, Array_forEach in Hk, Hk'.
    rewrite (Hh _ _ Hk), (Hh _ _ Hk'). unfold column_height.
    destruct (k <? _)%nat, (k' <? _)%nat; lia.
Qed.

End LayoutOrder.

(** The scenario of the specification: seven fields in default order, three
    columns. *)
Lemma getFieldLayout_round_robin_witness :
  let fs := map Sample.plain ["a"; "b"; "c"; "d"; "e"; "f"; "g"]%string in
  let lay :=
    {| columns := Some 3%nat; fieldOrder := None; spacing := normal |} in
  let c := Sample.component (Sample.form fs (Some lay) None) false ∅ in
  DynamicForm.sortedFields (DynamicForm.config c) = fs
  ∧ DynamicForm.layout_columns (DynamicForm.config c) = 3%nat
  ∧ DynamicForm.getFieldLayout c
    = [map Sample.plain ["a"; "d"; "g"]%string;
       map Sample.plain ["b"; "e"]%string;
       map Sample.plain ["c"; "f"]%string].
Proof.
  intros fs lay c.
  assert (Hs : DynamicForm.sortedFields (DynamicForm.config c) = fs)
    by (vm_compute; reflexivity).
  split; [exact Hs | split; [reflexivity | ]].
  destruct (getFieldLayout_round_robin c) as (_ & _ & H & _).
  apply H; [exact Hs | reflexivity].
Defined.

(** Five fields in reverse order over two columns. *)
Lemma getFieldLayout_partition_witness :
  let fs := map Sample.plain ["a"; "b"; "c"; "d"; "e"]%string in
  let lay :=
    {| columns := Some 2%nat;
       fieldOrder := Some (map lit ["e"; "d"; "c"; "b"; "a"]%string);
       spacing := normal |} in
  let c := Sample.component (Sample.form fs (Some lay) None) false ∅ in
  let left := map Sample.plain ["e"; "c"; "a"]%string in
  let right := map Sample.plain ["d"; "b"]%string in
  DynamicForm.getFieldLayout c = [left; right]
  ∧ concat (DynamicForm.getFieldLayout c) ≡ₚ fs
  ∧ (length left <= length right + 1)%nat.
Proof.
  intros fs lay c left right.
  assert (Hl : DynamicForm.getFieldLayout c = [left; right])
    by (vm_compute; reflexivity).
  destruct (getFieldLayout_partition c) as (Hp & _ & Hb).
  split; [exact Hl | split; [exact Hp | ]].
  apply (Hb 0%nat 1%nat); rewrite Hl; reflexivity.
Defined.

(** ** Where [validate] and the validation utility agree *)

Section ValidateAgreement.

Variable RegExp_new : jsstring -> option (jsstring -> bool).

Lemma validate_field_agrees d acc field :
  pattern_free field ->
  by_validateField_step RegExp_new d acc field
  = Normal (formActions.validate_field d acc field).
Proof.
  intros Hpf.
  unfold formActions.validate_field, by_validateField_step.
  unfold validateField, return_if.
  destruct acc as [errs ok]. simpl.
  destruct (required_and_blank field _); [reflexivity | ].
  destruct (truthy _); simpl; [ | reflexivity].
  destruct (type field) eqn:Ht;
    try (destruct (RegExp_test _ _); reflexivity); try reflexivity.
  all: destruct Hpf as [Hp Hb]; [auto | ]; rewrite Hp; simpl.
  all: destruct (number_truthy (validation_min field)) eqn:Hmin;
    destruct (number_truthy (validation_max field)) eqn:Hmax; simpl;
    repeat match goal with
           | |- context [ (?a <? ?b)%Z ] => destruct (Z.ltb_spec a b)
           end; simpl; try reflexivity.
  all: destruct Hb as [Hb | [Hb | Hb]]; try discriminate; lia.
Qed.

Lemma validate_fold_agrees d l : ∀ acc,
  Forall pattern_free l ->
  Outcome_fold (by_validateField_step RegExp_new d) l acc
  = Normal (fold_left (formActions.validate_field d) l acc).
Proof.
  induction l as [ | field l IH ]; intros acc Hl; simpl; [reflexivity | ].
  inversion Hl; subst. rewrite validate_field_agrees by assumption. auto.
Qed.

(** On configurations whose text fields carry no pattern and no crossed
    bounds, [validate] is the field-by-field run of [validateField]. *)
Lemma validate_agrees_without_pattern (w : Stores) cfg :
  config (formState w) = Some cfg ->
  Forall pattern_free (fields cfg) ->
  verdict_by_validateField RegExp_new cfg (data (formState w))
  = Normal (formActions.validate w).1
  ∧ errors_by_validateField RegExp_new cfg (data (formState w))
    = Normal (errors (formState (formActions.validate w).2)).
Proof.
  intros Hcfg Hpf.
  unfold verdict_by_validateField, errors_by_validateField, by_validateField.
  rewrite validate_fold_agrees by assumption.
  unfold formActions.validate. rewrite Hcfg.
  destruct (fold_left _ _ _) as [errs ok]. split; reflexivity.
Qed.

End ValidateAgreement.

(** On the server [setSubmitted] returns: [browser] is false and the test
    stops before [state]. *)
Lemma setSubmitted_on_server (w : Stores) :
  runtime w = Server ->
  (formActions.setSubmitted w).2 = Returns
  ∧ isSubmitted (formState (formActions.setSubmitted w).1) = true.
Proof.
  intros Hrt. unfold formActions.setSubmitted. simpl. now rewrite Hrt.
Qed.

(** ** More of the utilities *)

Section UtilsFacts.

Import utils.

Lemma filter_digits_all (s : jsstring) :
  Forall (fun c : N => is_digit c = true) s -> @List.filter N is_digit s = s.
Proof.
  induction 1 as [ | c s Hc _ IH ]; simpl; [reflexivity | ].
  now rewrite Hc, IH.
Qed.

Lemma filter_digits_digits (s : jsstring) :
  Forall (fun c : N => is_digit c = true) (@List.filter N is_digit s).
Proof.
  induction s as [ | c s IH ]; simpl; [constructor | ].
  destruct (is_digit c) eqn:Hc; [constructor | ]; assumption.
Qed.

Lemma take_take_drop (c : jsstring) :
  take 3 c ++ take 3 (drop 3 c) ++ drop 6 c = c.
Proof.
  replace (drop 6 c) with (drop 3 (drop 3 c))
    by (rewrite drop_drop; reflexivity).
  rewrite (take_drop 3 (drop 3 c)). apply take_drop.
Qed.

Lemma formatted_digits (c : jsstring) :
  Forall (fun x => is_digit x = true) c ->
  List.filter is_digit
    (lit "(" ++ slice 0 3 c ++ lit ") " ++ slice 3 6 c ++ lit "-" ++ drop 6 c)
  = c.
Proof.
  intros Hc. unfold slice, code_unit in *. rewrite !List.filter_app.
  assert (E1 : @List.filter N is_digit (lit "(") = []) by reflexivity.
  assert (E2 : @List.filter N is_digit (lit ") ") = []) by reflexivity.
  assert (E3 : @List.filter N is_digit (lit "-") = []) by reflexivity.
  rewrite E1, E2, E3.
  rewrite (filter_digits_all (take (3 - 0) (drop 0 c)))
    by now apply Forall_take, Forall_drop.
  rewrite (filter_digits_all (take (6 - 3) (drop 3 c)))
    by now apply Forall_take, Forall_drop.
  rewrite (filter_digits_all (drop 6 c)) by now apply Forall_drop.
  simpl. rewrite drop_0. apply take_take_drop.
Qed.

(** X1.  [formatPhoneNumber] keeps the digits of its argument and is
    idempotent: formatting a formatted number changes nothing. *)
Theorem formatPhoneNumber_idempotent (phone : jsstring) :
  List.filter is_digit (formatPhoneNumber phone) = List.filter is_digit phone
  ∧ formatPhoneNumber (formatPhoneNumber phone) = formatPhoneNumber phone.
Proof.
  assert (Hd : List.filter is_digit (formatPhoneNumber phone)
               = List.filter is_digit phone).
  { unfold formatPhoneNumber.
    destruct (Nat.eqb (length (List.filter is_digit phone)) 10);
      [ | reflexivity].
    apply formatted_digits, filter_digits_digits. }
  split; [exact Hd | ].
  unfold formatPhoneNumber at 1. rewrite Hd.
  unfold formatPhoneNumber.
  destruct (Nat.eqb (length (List.filter is_digit phone)) 10); reflexivity.
Qed.

(** X2.  A number with exactly ten digits comes out as [(ddd) ddd-dddd],
    fourteen characters long, whatever stood between the digits; any other
    is returned as it is. *)
Theorem formatPhoneNumber_shape (phone : jsstring) :
  (length (List.filter is_digit phone) = 10%nat ->
   ∃ a b c : jsstring,
     List.filter is_digit phone = a ++ b ++ c
     ∧ length a = 3%nat ∧ length b = 3%nat ∧ length c = 4%nat
     ∧ formatPhoneNumber phone
       = lit "(" ++ a ++ lit ") " ++ b ++ lit "-" ++ c
     ∧ length (formatPhoneNumber phone) = 14%nat)
  ∧ (length (List.filter is_digit phone) ≠ 10%nat ->
     formatPhoneNumber phone = phone).
Proof.
  unfold formatPhoneNumber.
  generalize (List.filter is_digit phone) as d. intros d.
  split; intros Hlen.
  - rewrite Hlen. change (Nat.eqb 10 10) with true. cbv iota.
    unfold code_unit in *.
    exists (slice 0 3 d), (slice 3 6 d), (drop 6 d).
    assert (Ha : length (slice 0 3 d) = 3%nat)
      by (unfold slice; rewrite length_take, length_drop; lia).
    assert (Hb : length (slice 3 6 d) = 3%nat)
      by (unfold slice; rewrite length_take, length_drop; lia).
    assert (Hc : length (drop 6 d) = 4%nat) by (rewrite length_drop; lia).
    split; [ | split; [exact Ha | split; [exact Hb | split; [exact Hc | ]]]].
    + unfold slice. simpl. rewrite drop_0. symmetry. apply take_take_drop.
    + split; [reflexivity | ].
      rewrite !length_app, Ha, Hb, Hc. reflexivity.
  - apply Nat.eqb_neq in Hlen. now rewrite Hlen.
Qed.

Lemma formatPhoneNumber_shape_witness :
  formatPhoneNumber (lit "555.123.4567") = lit "(555) 123-4567".
Proof.
  destruct (formatPhoneNumber_shape (lit "555.123.4567")) as [H _].
  destruct (H eq_refl) as (a & b & c & _ & _ & _ & _ & _ & _).
  reflexivity.
Defined.

Lemma hex_value_bound c : is_hex c = true -> (hex_value c < 16)%N.
Proof.
  unfold is_hex, hex_value, is_digit. intros H.
  destruct (N.leb_spec 48 c), (N.leb_spec c 57), (N.leb_spec 97 c),
    (N.leb_spec c 102), (N.leb_spec 65 c), (N.leb_spec c 70);
    simpl in *; try discriminate; lia.
Qed.

Lemma parseInt16_pair_bound c1 c2 :
  is_hex c1 = true -> is_hex c2 = true -> (parseInt16 [c1; c2] < 256)%N.
Proof.
  intros H1 H2. unfold parseInt16. simpl.
  pose proof (hex_value_bound _ H1). pose proof (hex_value_bound _ H2). lia.
Qed.

(** X3.  Whenever [hexToRgb] answers, the text was six hexadecimal digits,
    after at most one [#], and each component is below 256. *)
Theorem hexToRgb_components (hex : jsstring) (c : RGB) :
  hexToRgb hex = Some c ->
  (r c < 256 ∧ g c < 256 ∧ b c < 256)%N
  ∧ ∃ digits : jsstring,
      (hex = digits ∨ hex = 35%N :: digits)
      ∧ length digits = 6%nat
      ∧ Forall (fun x => is_hex x = true) digits.
Proof.
  unfold hexToRgb. intros H.
  set (digits := match hex with 35%N :: rest => rest | _ => hex end) in H.
  assert (Hhex : hex = digits ∨ hex = 35%N :: digits).
  { subst digits. destruct hex as [ | x rest ]; [now left | ].
    destruct (decide (x = 35%N)) as [-> | Hne]; [now right | ].
    left. destruct x as [ | p ]; [reflexivity | ].
    do 6 (destruct p as [p | p | ]; try reflexivity). congruence. }
  destruct digits as [ | r1 [ | r2 [ | g1 [ | g2 [ | b1 [ | b2 [ | ? ? ]]]]]]];
    try discriminate.
  destruct (forallb is_hex _) eqn:Hall; [ | discriminate].
  injection H as <-. simpl.
  pose proof (proj1 (List.forallb_forall is_hex _) Hall) as Hin.
  split.
  - repeat split; apply parseInt16_pair_bound; apply Hin; simpl; auto 10.
  - eexists. split; [exact Hhex | split; [reflexivity | ]].
    apply Forall_forall. intros x Hx. apply Hin. now apply list_elem_of_In.
Qed.

Lemma hexToRgb_components_witness :
  hexToRgb (lit "#3B82f6") = Some {| r := 59; g := 130; b := 246 |}
  ∧ (59 < 256 ∧ 130 < 256 ∧ 246 < 256)%N.
Proof.
  split; [reflexivity | ].
  apply (hexToRgb_components (lit "#3B82f6") {| r := 59; g := 130; b := 246 |}).
  reflexivity.
Defined.

(** X4.  [getContrastColor] answers black or white only, and black on a
    text that is not a colour.  It is monotone: if a colour gets black text,
    so does every colour that is at least as bright in each component.  On
    a grey, the three components being equal, it answers black exactly
    above the level 128. *)
Theorem getContrastColor_monotone (h1 h2 : jsstring) :
  (getContrastColor h1 = lit "#000000" ∨ getContrastColor h1 = lit "#ffffff")
  ∧ (hexToRgb h1 = None -> getContrastColor h1 = lit "#000000")
  ∧ (∀ c1 c2,
       hexToRgb h1 = Some c1 ->
       hexToRgb h2 = Some c2 ->
       (r c1 <= r c2)%N -> (g c1 <= g c2)%N -> (b c1 <= b c2)%N ->
       getContrastColor h1 = lit "#000000" ->
       getContrastColor h2 = lit "#000000")
  ∧ (∀ c1,
       hexToRgb h1 = Some c1 ->
       r c1 = g c1 -> g c1 = b c1 ->
       (getContrastColor h1 = lit "#000000" ↔ (128 < r c1)%N)).
Proof.
  unfold getContrastColor, brightness1000.
  split; [ | split; [ | split]].
  - destruct (hexToRgb h1) as [c1 | ]; [ | now left].
    destruct (N.ltb _ _); auto.
  - now intros ->.
  - intros c1 c2 H1 H2 Hr Hg Hb. rewrite H1, H2.
    destruct (N.ltb_spec 128000 (r c1 * 299 + g c1 * 587 + b c1 * 114));
      destruct (N.ltb_spec 128000 (r c2 * 299 + g c2 * 587 + b c2 * 114));
      auto; try discriminate; lia.
  - intros c1 H1 Hrg Hgb. rewrite H1, <- Hgb, <- Hrg.
    destruct (N.ltb_spec 128000 (r c1 * 299 + r c1 * 587 + r c1 * 114));
      split; auto; try discriminate; lia.
Qed.

Lemma getContrastColor_monotone_witness :
  getContrastColor (lit "#cccccc") = lit "#000000"
  ∧ getContrastColor (lit "#ffffff") = lit "#000000"
  ∧ getContrastColor (lit "#808080") = lit "#ffffff".
Proof.
  destruct (getContrastColor_monotone (lit "#cccccc") (lit "#ffffff"))
    as (_ & _ & Hmono & Hgrey).
  assert (Hc : getContrastColor (lit "#cccccc") = lit "#000000").
  { apply (Hgrey {| r := 204; g := 204; b := 204 |});
      reflexivity. }
  split; [exact Hc | split].
  - apply (Hmono {| r := 204; g := 204; b := 204 |}
             {| r := 255; g := 255; b := 255 |});
      try reflexivity; try exact Hc; vm_compute; discriminate.
  - destruct (getContrastColor_monotone (lit "#808080") [])
      as ([Hb | Hw] & _ & _ & Hgrey'); [ | exact Hw].
    apply (Hgrey' {| r := 128; g := 128; b := 128 |}) in Hb;
      [ | reflexivity | reflexivity | reflexivity].
    vm_compute in Hb. discriminate Hb.
Defined.

(** X5.  Whatever [handleApiError] is given, the error it builds has a
    message that is not empty; the code PGRST116 wins over any message. *)
Theorem handleApiError_message (error : Thrown) :
  message (handleApiError error) ≠ []
  ∧ (thrown_code error = Some (lit "PGRST116") ->
     message (handleApiError error) = lit "Form not found"
     ∧ code (handleApiError error) = Some (lit "FORM_NOT_FOUND")).
Proof.
  unfold handleApiError. split.
  - destruct (bool_decide _); [discriminate | ].
    destruct (thrown_message error) as [[ | x m] | ]; simpl; discriminate.
  - intros H. rewrite bool_decide_eq_true_2 by assumption.
    split; reflexivity.
Qed.

Lemma handleApiError_message_witness :
  message (handleApiError
             {| thrown_code := Some (lit "PGRST116");
                thrown_message := Some (lit "JSON object requested");
                thrown_field := None |}) = lit "Form not found".
Proof.
  apply (handleApiError_message
           {| thrown_code := Some (lit "PGRST116");
              thrown_message := Some (lit "JSON object requested");
              thrown_field := None |}).
  reflexivity.
Defined.

(** The endpoint hands [handleApiError] errors that carry a message and no
    code; its reading of the result is the one above. *)
Lemma endpoint_handleApiError (msg : jsstring) :
  SubmitEndpoint.handleApiError msg
  = (message (handleApiError {| thrown_code := None;
                                thrown_message := Some msg;
                                thrown_field := None |}),
     code (handleApiError {| thrown_code := None;
                             thrown_message := Some msg;
                             thrown_field := None |})).
Proof.
  unfold SubmitEndpoint.handleApiError, handleApiError.
  destruct msg; reflexivity.
Qed.

(** X6.  [getOrgCodeFromUrl] answers exactly on the paths that begin with
    [/] and six characters of [A-Z0-9]; what follows the six is not looked
    at.  The path [buildFormUrl] makes for such a code, with no base, gives
    the code back. *)
Theorem getOrgCodeFromUrl_prefix (path code : jsstring) :
  (getOrgCodeFromUrl (Some path) = Some code
   ↔ ∃ rest, path = 47%N :: code ++ rest
             ∧ length code = 6%nat
             ∧ forallb is_code_char code = true)
  ∧ (length code = 6%nat -> forallb is_code_char code = true ->
     ∀ rest,
       getOrgCodeFromUrl (Some (buildFormUrl code None None ++ rest))
       = Some code).
Proof.
  assert (Hfwd : ∀ rest, length code = 6%nat ->
                   forallb is_code_char code = true ->
                   getOrgCodeFromUrl (Some (47%N :: code ++ rest)) = Some code).
  { intros rest Hlen Hall. unfold getOrgCodeFromUrl.
    rewrite (take_app_length' code rest 6 (eq_sym Hlen)).
    unfold code_unit in *. now rewrite Hlen, Hall. }
  split; [split | ].
  - unfold getOrgCodeFromUrl. intros H.
    destruct path as [ | x rest ]; [discriminate | ].
    destruct (decide (x = 47%N)) as [-> | Hne].
    + destruct (Nat.eqb_spec (length (take 6 rest)) 6); simpl in H;
        [ | discriminate].
      destruct (forallb is_code_char (take 6 rest)) eqn:Hall;
        [ | discriminate].
      injection H as <-. exists (drop 6 rest).
      now rewrite take_drop.
    + destruct x as [ | p ]; [discriminate | ].
      do 6 (destruct p as [p | p | ]; try discriminate). congruence.
  - intros (rest & -> & Hlen & Hall). now apply Hfwd.
  - intros Hlen Hall rest. unfold buildFormUrl. simpl. now apply Hfwd.
Qed.

Lemma getOrgCodeFromUrl_prefix_witness :
  getOrgCodeFromUrl (Some (lit "/ABC123/edit")) = Some (lit "ABC123").
Proof.
  apply (proj1 (getOrgCodeFromUrl_prefix (lit "/ABC123/edit") (lit "ABC123"))).
  exists (lit "/edit"). repeat split.
Defined.

End UtilsFacts.

(** ** The storage helpers *)

Lemma JSON_stringify_lookup (d : gmap jsstring value) (k : jsstring) :
  JSON_stringify d !! k
  = match d !! k with
    | Some VUndefined => None
    | other => other
    end.
Proof.
  unfold JSON_stringify. rewrite lookup_omap.
  destruct (d !! k) as [[ | s | b] | ]; reflexivity.
Qed.

(** X7.  In the browser [storage.get] after [storage.set] under the same key
    gives the record back without its [undefined] members, every other
    member intact; other keys are not disturbed, and after [storage.remove]
    the key reads as nothing.  On the server every read is nothing. *)
Theorem storage_round_trip (key : jsstring) (d : gmap jsstring value)
    (ls : gmap jsstring StorageItem) :
  (∃ d', storage_get key (storage_set key d (Browser ls)) = Some d'
         ∧ ∀ k, d' !! k = match d !! k with
                           | Some VUndefined => None
                           | other => other
                           end)
  ∧ (∀ key', key' ≠ key ->
       storage_get key' (storage_set key d (Browser ls))
       = storage_get key' (Browser ls))
  ∧ storage_get key (storage_remove key (storage_set key d (Browser ls)))
    = None
  ∧ storage_get key (storage_set key d Server) = None.
Proof.
  split; [ | split; [ | split]]; simpl.
  - exists (JSON_stringify d). rewrite lookup_insert_eq.
    split; [reflexivity | apply JSON_stringify_lookup].
  - intros key' Hne. now rewrite lookup_insert_ne.
  - now rewrite lookup_delete_eq.
  - reflexivity.
Qed.

(** ** More of the form state store *)

Lemma validate_field_sound d acc field :
  name field ≠ lit "__proto__" ->
  (acc.2 = true -> acc.1 = ∅) -> (acc.2 = false -> acc.1 ≠ ∅) ->
  ((formActions.validate_field d acc field).2 = true ->
   (formActions.validate_field d acc field).1 = ∅)
  ∧ ((formActions.validate_field d acc field).2 = false ->
     (formActions.validate_field d acc field).1 ≠ ∅).
Proof.
  intros Hn Ht Hf. unfold formActions.validate_field.
  rewrite !(assign_insert _ _ _ Hn).
  destruct acc as [errs ok]. simpl in *.
  repeat match goal with
         | |- context [ if ?c then _ else _ ] => destruct c
         | |- context [ match type field with _ => _ end ] =>
             destruct (type field)
         end; simpl; split; intros; auto; try discriminate;
    apply insert_non_empty.
Qed.

Lemma validate_fold_sound d l : ∀ acc,
  Forall (fun field => name field ≠ lit "__proto__") l ->
  (acc.2 = true -> acc.1 = ∅) -> (acc.2 = false -> acc.1 ≠ ∅) ->
  ((fold_left (formActions.validate_field d) l acc).2 = true ->
   (fold_left (formActions.validate_field d) l acc).1 = ∅)
  ∧ ((fold_left (formActions.validate_field d) l acc).2 = false ->
     (fold_left (formActions.validate_field d) l acc).1 ≠ ∅).
Proof.
  induction l as [ | field l IH ]; intros acc Hl Ht Hf; simpl; [auto | ].
  inversion Hl; subst.
  destruct (validate_field_sound d acc field) as [? ?]; try assumption.
  now apply IH.
Qed.

(** X8.  With an active configuration none of whose fields is named
    [__proto__], the verdict of [validate] is the value the derived store
    [isValid] takes on the state it leaves: it answers [true] exactly when
    the error map it installs is empty.  (An error assigned under the name
    [__proto__] reaches the setter of [Object.prototype] and is lost: see
    [validate_loses_error].) *)
Theorem validate_verdict_isValid (w : Stores) (cfg : FormConfig) :
  config (formState w) = Some cfg ->
  Forall (fun field => name field ≠ lit "__proto__") (fields cfg) ->
  (formActions.validate w).1 = isValid (formState (formActions.validate w).2)
  ∧ ((formActions.validate w).1 = true
     ↔ errors (formState (formActions.validate w).2) = ∅).
Proof.
  intros Hcfg Hnames. unfold formActions.validate, isValid. rewrite Hcfg.
  destruct (validate_fold_sound (data (formState w)) (fields cfg) (∅, true))
    as [Ht Hf]; [assumption | reflexivity | discriminate | ].
  destruct (fold_left _ _ _) as [errs ok]. simpl in *.
  destruct ok.
  - rewrite (Ht eq_refl). rewrite map_size_empty. split; [reflexivity | ].
    split; reflexivity.
  - specialize (Hf eq_refl). split.
    + symmetry. apply Nat.eqb_neq. intros H0.
      now apply map_size_empty_iff in H0.
    + split; [discriminate | contradiction].
Qed.

Lemma validate_verdict_isValid_witness :
  let cfg := Sample.form [Sample.field "email" "Email" email true None]
               None None in
  let w := Sample.stores (Some cfg) {[ lit "email" := VString (lit "jane") ]}
             (lit "session_1_a") Server in
  (formActions.validate w).1 = false
  ∧ isValid (formState (formActions.validate w).2) = false.
Proof.
  intros cfg w.
  destruct (validate_verdict_isValid w cfg eq_refl) as [H _].
  - constructor; [discriminate | constructor].
  - split; [reflexivity | ]. rewrite <- H. reflexivity.
Defined.

(** A required field named [__proto__], left empty: [validate] answers
    [false], yet the error map it installs is empty and [isValid] is
    [true]. *)
Lemma validate_loses_error :
  let cfg := Sample.form [Sample.field "__proto__" "Prototype" text true None]
               None None in
  let w := Sample.stores (Some cfg) {[ lit "__proto__" := VString [] ]}
             (lit "session_1_a") Server in
  (formActions.validate w).1 = false
  ∧ errors (formState (formActions.validate w).2) = ∅
  ∧ isValid (formState (formActions.validate w).2) = true.
Proof.
  repeat split.
Qed.

Lemma validate_field_lookup d acc field k m :
  (formActions.validate_field d acc field).1 !! k = Some m ->
  name field = k ∨ acc.1 !! k = Some m.
Proof.
  unfold formActions.validate_field, assign. destruct acc as [errs ok]. simpl.
  destruct (decide (name field = k)) as [Heq | Hne]; [now left | ].
  intros H. right. revert H.
  repeat match goal with
         | |- context [ if ?c then _ else _ ] => destruct c
         | |- context [ match type field with _ => _ end ] =>
             destruct (type field)
         end; simpl; rewrite ?lookup_insert_ne by assumption; auto.
Qed.

Lemma validate_fold_lookup d l : ∀ acc k m,
  (fold_left (formActions.validate_field d) l acc).1 !! k = Some m ->
  (∃ field, field ∈ l ∧ name field = k) ∨ (∃ m', acc.1 !! k = Some m').
Proof.
  induction l as [ | field l IH ]; intros acc k m H; simpl in H.
  - right. eauto.
  - destruct (IH _ _ _ H) as [(f & Hf & Hn) | (m' & Hm')].
    + left. exists f. split; [now apply elem_of_cons; right | exact Hn].
    + destruct (validate_field_lookup _ _ _ _ _ Hm') as [Hn | Hacc].
      * left. exists field. split; [now apply elem_of_cons; left | exact Hn].
      * right. eauto.
Qed.

(** X9.  [validate] replaces the error map: whatever errors the state held
    before, afterwards every error stands under the name of a field of the
    active configuration; the field values are not touched. *)
Theorem validate_replaces_errors (w : Stores) (cfg : FormConfig) :
  config (formState w) = Some cfg ->
  (∀ k m, errors (formState (formActions.validate w).2) !! k = Some m ->
          ∃ field, field ∈ fields cfg ∧ name field = k)
  ∧ data (formState (formActions.validate w).2) = data (formState w)
  ∧ runtime (formActions.validate w).2 = runtime w.
Proof.
  intros Hcfg. unfold formActions.validate. rewrite Hcfg.
  pose proof (validate_fold_lookup (data (formState w)) (fields cfg) (∅, true))
    as Hl.
  destruct (fold_left _ _ _) as [errs ok]. simpl in *.
  split; [ | split; reflexivity].
  intros k m Hk. destruct (Hl k m Hk) as [H | (m' & Hm')]; [exact H | ].
  now rewrite lookup_empty in Hm'.
Qed.

Lemma validate_replaces_errors_witness :
  let cfg := Sample.form [Sample.field "email" "Email" email true None]
               None None in
  let w := formActions.setFieldError (lit "ghost") (lit "stale")
             (Sample.stores (Some cfg) ∅ (lit "session_1_a") Server) in
  errors (formState w) !! lit "ghost" = Some (lit "stale")
  ∧ errors (formState (formActions.validate w).2) !! lit "ghost" = None.
Proof.
  intros cfg w. split; [reflexivity | ].
  destruct (validate_replaces_errors w cfg eq_refl) as (H & _ & _).
  destruct (errors (formState (formActions.validate w).2) !! lit "ghost")
    as [m | ] eqn:Hm; [ | reflexivity].
  destruct (H _ _ Hm) as (field & Hin & Hn).
  apply list_elem_of_singleton in Hin. subst field. discriminate Hn.
Defined.

(** X10.  On a configuration whose text and textarea fields carry no
    pattern and no crossed bounds, [validate] is the field-by-field run of
    [validateField]: same verdict, same error map; and that run comes to
    its end. *)
Theorem validate_refines_validateField
    (RegExp_new : jsstring -> option (jsstring -> bool)) (w : Stores)
    (cfg : FormConfig) :
  config (formState w) = Some cfg ->
  Forall pattern_free (fields cfg) ->
  verdict_by_validateField RegExp_new cfg (data (formState w))
  = Normal (formActions.validate w).1
  ∧ errors_by_validateField RegExp_new cfg (data (formState w))
    = Normal (errors (formState (formActions.validate w).2)).
Proof.
  apply validate_agrees_without_pattern.
Qed.

Lemma validate_refines_validateField_witness :
  let cfg :=
    Sample.form
      [Sample.field "email" "Email" email true None;
       Sample.field "note" "Note" text false
         (Some {| min := Some 2; max := Some 5; pattern := None |})]
      None None in
  let d : gmap jsstring value :=
    {[ lit "email" := VString (lit "jane"); lit "note" := VString (lit "x") ]} in
  let w := Sample.stores (Some cfg) d (lit "session_1_a") Server in
  verdict_by_validateField Sample.engine cfg d
  = Normal (formActions.validate w).1
  ∧ errors_by_validateField Sample.engine cfg d
    = Normal (errors (formState (formActions.validate w).2)).
Proof.
  intros cfg d w.
  apply (validate_refines_validateField Sample.engine w cfg eq_refl).
  constructor; [intros [H | H]; discriminate H | ].
  constructor; [ | constructor].
  intros _. split; [reflexivity | left; simpl; lia].
Defined.

(** X11.  Auto-save round trip: in the browser, with [auto_save] on, what
    [initialize] puts back after an [updateField] is the data that call
    left, less the members that are [undefined]. *)
Theorem autosave_round_trip (now now' : N) (suffix fieldName : jsstring)
    (v : value) (w : Stores) (cfg : FormConfig) ls :
  runtime w = Browser ls ->
  config (formState w) = Some cfg ->
  auto_save_on (Some cfg) = true ->
  data (formState
          (formActions.initialize now' suffix cfg
             (formActions.updateField now fieldName v w)))
  = JSON_stringify (data (formState (formActions.updateField now fieldName v w))).
Proof.
  intros Hrt Hcfg Hauto.
  unfold formActions.initialize. simpl.
  rewrite updateField_runtime, updateField_formState, Hcfg, Hrt. simpl.
  rewrite Hauto. simpl.
  rewrite lookup_insert_eq. reflexivity.
Qed.

Lemma autosave_round_trip_witness :
  let cfg :=
    Sample.form [Sample.plain "name"] None
      (Some {| show_progress := false; auto_save := true;
               confirmation_message := None; redirect_url := None |}) in
  let w := Sample.stores (Some cfg) ∅ (lit "session_1_a") (Browser ∅) in
  data (formState
          (formActions.initialize 2 (lit "b") cfg
             (formActions.updateField 1%N (lit "name") (VString (lit "Jane")) w)))
  = {[ lit "name" := VString (lit "Jane") ]}.
Proof.
  intros cfg w.
  rewrite (autosave_round_trip 1%N 2%N (lit "b") (lit "name")
             (VString (lit "Jane")) w cfg ∅ eq_refl eq_refl eq_refl).
  vm_compute. reflexivity.
Defined.

(** X12.  [updateField] calls on two different fields commute: the state
    and the saved snapshot are the same in either order. *)
Theorem updateField_commute (t1 t2 t3 t4 : Date) (n1 n2 : jsstring)
    (v1 v2 : value) (w : Stores) :
  n1 ≠ n2 ->
  formState (formActions.updateField t2 n2 v2
               (formActions.updateField t1 n1 v1 w))
  = formState (formActions.updateField t4 n1 v1
                 (formActions.updateField t3 n2 v2 w))
  ∧ runtime (formActions.updateField t2 n2 v2
               (formActions.updateField t1 n1 v1 w))
    = runtime (formActions.updateField t4 n1 v1
                 (formActions.updateField t3 n2 v2 w)).
Proof.
  intros Hne.
  rewrite !updateField_runtime, !updateField_formState. simpl.
  rewrite (insert_insert_ne _ n2 n1) by congruence.
  rewrite (delete_delete _ n2 n1).
  split; [reflexivity | ].
  destruct (config (formState w)) as [cfg | ]; [ | reflexivity].
  destruct (browser (runtime w) && auto_save_on (Some cfg)) eqn:Hb;
    rewrite ?storage_set_browser, Hb; [ | reflexivity].
  destruct (runtime w) as [ | ls ]; simpl; [reflexivity | ].
  now rewrite !insert_insert_eq.
Qed.

Lemma updateField_commute_witness :
  let w := Sample.stores None ∅ (lit "session_1_a") Server in
  data (formState (formActions.updateField 2%N (lit "b") (VBoolean true)
                     (formActions.updateField 1%N (lit "a") (VString (lit "x")) w)))
  = data (formState (formActions.updateField 4%N (lit "a") (VString (lit "x"))
                       (formActions.updateField 3%N (lit "b") (VBoolean true) w))).
Proof.
  intros w.
  destruct (updateField_commute 1%N 2%N 3%N 4%N (lit "a") (lit "b")
              (VString (lit "x")) (VBoolean true) w) as [H _];
    [discriminate | ].
  now rewrite H.
Defined.

(** X13.  After [reset], [initialize] with a configuration of the same
    identifier finds no snapshot: the form starts empty. *)
Theorem reset_then_initialize (n0 n1 : N) (s0 s1 : jsstring) (w : Stores)
    (cfg0 cfg : FormConfig) :
  formConfig w = Some cfg0 ->
  id cfg0 = id cfg ->
  data (formState (formActions.initialize n1 s1 cfg
                     (formActions.reset n0 s0 w))) = ∅
  ∧ persisted (storage_key (id cfg))
      (runtime (formActions.initialize n1 s1 cfg (formActions.reset n0 s0 w)))
    = None.
Proof.
  intros Hcfg Hid. unfold formActions.initialize, formActions.reset.
  rewrite Hcfg, Hid. simpl.
  destruct (runtime w) as [ | ls ] eqn:Hrt; simpl; rewrite ?Hrt; simpl.
  - split; reflexivity.
  - rewrite lookup_delete_eq.
    destruct (auto_save_on (Some cfg)); simpl; rewrite ?Hrt; simpl;
      rewrite ?lookup_delete_eq; split; reflexivity.
Qed.

Lemma reset_then_initialize_witness :
  let cfg :=
    Sample.form [Sample.plain "name"] None
      (Some {| show_progress := false; auto_save := true;
               confirmation_message := None; redirect_url := None |}) in
  let ls : gmap jsstring StorageItem :=
    {[ lit "form_f1_data"
       := Serialized {[ lit "name" := VString (lit "Jane") ]} ]} in
  let w := Sample.stores (Some cfg) ∅ (lit "session_1_a") (Browser ls) in
  data (formState (formActions.initialize 1 (lit "a") cfg w))
  = {[ lit "name" := VString (lit "Jane") ]}
  ∧ data (formState (formActions.initialize 3 (lit "c") cfg
                       (formActions.reset 2 (lit "b") w))) = ∅.
Proof.
  intros cfg ls w. split; [reflexivity | ].
  apply (reset_then_initialize 2 3 (lit "b") (lit "c") w cfg cfg);
    reflexivity.
Defined.

(** X14.  Restoring is best effort: when the entry of the configuration is
    absent or is text that does not parse, or [auto_save] is not on,
    [initialize] starts the form empty, with no error, not submitted, under
    a fresh session identifier. *)
Theorem initialize_without_snapshot (now : N) (suffix : jsstring)
    (cfg : FormConfig) (w : Stores) :
  persisted (storage_key (id cfg)) (runtime w) = None
  ∨ (∃ raw, persisted (storage_key (id cfg)) (runtime w)
            = Some (Unparsable raw))
  ∨ auto_save_on (Some cfg) = false ->
  let w' := formActions.initialize now suffix cfg w in
  data (formState w') = ∅
  ∧ errors (formState w') = ∅
  ∧ isSubmitted (formState w') = false
  ∧ sessionId (formState w') = generateSessionId now suffix
  ∧ runtime w' = runtime w.
Proof.
  intros H. unfold formActions.initialize. simpl.
  destruct (browser (runtime w) && auto_save_on (Some cfg)) eqn:Hb;
    [ | repeat split].
  apply andb_true_iff in Hb as [Hbr Hauto].
  destruct (runtime w) as [ | ls ]; [discriminate | ]. simpl in *.
  destruct H as [H | [(raw & H) | H]]; [ | | congruence];
    rewrite H; repeat split.
Qed.

Lemma initialize_without_snapshot_witness :
  let cfg :=
    Sample.form [Sample.plain "name"] None
      (Some {| show_progress := false; auto_save := true;
               confirmation_message := None; redirect_url := None |}) in
  let ls : gmap jsstring StorageItem :=
    {[ lit "form_f1_data" := Unparsable (lit "{name:") ]} in
  let w := Sample.stores None ∅ (lit "session_1_a") (Browser ls) in
  data (formState (formActions.initialize 5 (lit "q") cfg w)) = ∅.
Proof.
  intros cfg ls w.
  apply (initialize_without_snapshot 5 (lit "q") cfg w).
  right. left. exists (lit "{name:"). reflexivity.
Defined.

(** X15.  [updateField] writes no snapshot on the server, nor when the
    active configuration does not have [auto_save] on (no configuration, no
    [settings], or the flag off): storage and [lastAutoSave] stay as they
    were. *)
Theorem updateField_without_autosave (now : Date) (fieldName : jsstring)
    (v : value) (w : Stores) :
  runtime w = Server ∨ auto_save_on (config (formState w)) = false ->
  runtime (formActions.updateField now fieldName v w) = runtime w
  ∧ lastAutoSave (formActions.updateField now fieldName v w) = lastAutoSave w.
Proof.
  intros H.
  assert (Hoff : browser (runtime w) && auto_save_on (config (formState w))
                 = false).
  { destruct H as [H | H]; rewrite H; [reflexivity | apply andb_false_r]. }
  unfold formActions.updateField.
  destruct (config (formState w)) as [cfg | ]; [ | split; reflexivity].
  rewrite Hoff. split; reflexivity.
Qed.

Lemma updateField_without_autosave_witness :
  let cfg := Sample.form [Sample.plain "name"] None None in
  let w := Sample.stores (Some cfg) ∅ (lit "session_1_a") (Browser ∅) in
  runtime (formActions.updateField 1%N (lit "name") (VString (lit "Jane")) w)
  = Browser ∅.
Proof.
  intros cfg w.
  apply (updateField_without_autosave 1%N (lit "name") (VString (lit "Jane")) w).
  right. reflexivity.
Defined.

(** ** The analytics tracker *)

Lemma trackEvent_once event t :
  analyticsActions.analyticsQueue (analyticsActions.trackEvent event t) = []
  ∧ analyticsActions.console_log (analyticsActions.trackEvent event t)
    = analyticsActions.console_log t
      ++ [analyticsActions.analyticsQueue t ++ [event]].
Proof.
  unfold analyticsActions.trackEvent, analyticsActions.processAnalyticsQueue.
  simpl.
  destruct (analyticsActions.analyticsQueue t ++ [event]) eqn:Hq;
    [ | split; reflexivity].
  now apply app_nil in Hq as [_ [=]].
Qed.

(** X17.  [trackEvent] never leaves an event waiting: after each call the
    queue is empty and the log has received, in one batch, what was waiting
    with the new event last.  From an empty queue, a run of calls logs each
    event alone, in the order of the calls. *)
Theorem trackEvent_drains :
  (∀ event t,
     analyticsActions.analyticsQueue (analyticsActions.trackEvent event t) = []
     ∧ analyticsActions.console_log (analyticsActions.trackEvent event t)
       = analyticsActions.console_log t
         ++ [analyticsActions.analyticsQueue t ++ [event]])
  ∧ (∀ events t,
       analyticsActions.analyticsQueue t = [] ->
       let t' := fold_left (fun t' e => analyticsActions.trackEvent e t')
                   events t in
       analyticsActions.analyticsQueue t' = []
       ∧ analyticsActions.console_log t'
         = analyticsActions.console_log t ++ map (fun e => [e]) events).
Proof.
  split; [exact trackEvent_once | ].
  intros events. induction events as [ | e events IH ]; intros t Hq; simpl.
  - split; [exact Hq | now rewrite app_nil_r].
  - destruct (trackEvent_once e t) as [Hq' Hl'].
    destruct (IH _ Hq') as [Hq'' Hl'']. split; [exact Hq'' | ].
    rewrite Hl'', Hl', Hq, <- app_assoc. reflexivity.
Qed.

Lemma trackEvent_drains_witness :
  let env := {| analyticsActions.ambient_sessionId := lit "session_1_a";
                analyticsActions.ambient_userAgent := None;
                analyticsActions.ambient_duration := 1500%Z |} in
  let t0 := {| analyticsActions.analyticsQueue := [];
               analyticsActions.console_log := [] |} in
  let t1 := analyticsActions.trackFormView env (lit "f1") (lit "org1") t0 in
  analyticsActions.analyticsQueue t1 = []
  ∧ length (analyticsActions.console_log t1) = 1%nat.
Proof.
  intros env t0 t1.
  destruct trackEvent_drains as [H _].
  unfold t1, analyticsActions.trackFormView.
  destruct (H {| analyticsActions.form_id := lit "f1";
                 analyticsActions.org_id := lit "org1";
                 analyticsActions.event_type := analyticsActions.view;
                 analyticsActions.session_id := lit "session_1_a";
                 analyticsActions.duration_ms := None;
                 analyticsActions.field_name := None;
                 analyticsActions.field_type := None;
                 analyticsActions.user_agent := None |} t0) as [Hq Hl].
  split; [exact Hq | ].
  exact (eq_trans (f_equal (@length _) Hl) eq_refl).
Defined.

(** ** More of the submit handler *)

Section ComposerFacts.

Import DynamicForm.

Variable RegExp_new : jsstring -> option (jsstring -> bool).

Local Abbreviation handleSubmit := (handleSubmit RegExp_new).

(** X18.  Let in, the handler validates with the utility.  When every call
    of [validateField] returns, the error map the component keeps is the
    one of the field-by-field run (the fallback of the loop is never
    taken); when a call throws on a malformed pattern, the error map is the
    one the component had.  In both cases the handler ends by throwing. *)
Theorem handleSubmit_errors_by_validateField server c ls :
  isSubmitting c = false ->
  disabled c = false ->
  let r := handleSubmit server c ls in
  match errors_by_validateField RegExp_new (config c) (formData c) with
  | Normal errs =>
      errors (component r) = errs
      ∧ completion r
        = Abrupt (TypeError "formState.updateState")
  | Abrupt e => errors (component r) = errors c ∧ completion r = Abrupt e
  end.
Proof.
  intros Hs Hd r. subst r. rewrite handleSubmit_run, Hs, Hd. simpl.
  unfold errors_by_validateField.
  destruct (by_validateField _ _ _) as [checked | e]; split; reflexivity.
Qed.

(** The only error the utility throws is the SyntaxError of a pattern the
    engine refuses. *)
Lemma validateField_throws field v e :
  validateField RegExp_new field v = Abrupt e ->
  ∃ p, e = SyntaxError p ∧ RegExp_new p = None.
Proof.
  unfold validateField, return_if.
  repeat match goal with
         | |- context [ if ?c then _ else _ ] => destruct c
         | |- context [ match type field with _ => _ end ] =>
             destruct (type field)
         end; try discriminate.
  all: destruct (RegExp_new _) as [regex | ] eqn:Hnew;
    [destruct (negb _); discriminate | ].
  all: intros [= <-]; eauto.
Qed.

Lemma by_validateField_throws cfg d e :
  by_validateField RegExp_new cfg d = Abrupt e ->
  ∃ p, e = SyntaxError p ∧ RegExp_new p = None.
Proof.
  unfold by_validateField.
  generalize (∅ : gmap jsstring jsstring, true).
  induction (fields cfg) as [ | field l IH ]; intros acc; simpl;
    [discriminate | ].
  unfold by_validateField_step at 1.
  destruct (validateField _ _ _) as [[ | m] | err] eqn:Hv;
    try apply IH.
  intros [= <-]. exact (validateField_throws _ _ _ Hv).
Qed.

(** X19.  The handler never submits.  Whatever the form and the endpoint,
    it makes no call ([fetch], [dispatch], [trackFormSubmit]) and leaves the
    storage as it was.  Guarded, it returns; let in, it throws, a valid form
    included: the TypeError of [formState.updateState], or before it the
    SyntaxError of a pattern the engine refuses. *)
Theorem handleSubmit_never_posts server c ls :
  let r := handleSubmit server c ls in
  calls r = []
  ∧ localStorage r = ls
  ∧ if isSubmitting c || disabled c
    then completion r = Normal tt ∧ component r = c
    else
      completion r
      = Abrupt (TypeError "formState.updateState")
      ∨ ∃ p, completion r = Abrupt (SyntaxError p) ∧ RegExp_new p = None.
Proof.
  intros r. subst r. rewrite handleSubmit_run.
  destruct (isSubmitting c || disabled c); [repeat split | ].
  destruct (by_validateField _ _ _) as [checked | e] eqn:Hrun.
  - split; [reflexivity | split; [reflexivity | now left]].
  - split; [reflexivity | split; [reflexivity | right]].
    destruct (by_validateField_throws _ _ _ Hrun) as (p & -> & Hp). eauto.
Qed.

(** X20.  Whatever happens, the handler leaves the form as it was: the
    values, the configuration and the two flags [disabled] and
    [isSubmitting] are those it found, so the form can be edited and
    submitted again after a failure. *)
Theorem handleSubmit_frame server c ls :
  let r := handleSubmit server c ls in
  formData (component r) = formData c
  ∧ config (component r) = config c
  ∧ disabled (component r) = disabled c
  ∧ isSubmitting (component r) = isSubmitting c.
Proof.
  intros r. subst r. rewrite handleSubmit_run.
  destruct (isSubmitting c || disabled c); [repeat split | ].
  destruct (by_validateField _ _ _); repeat split.
Qed.

End ComposerFacts.

(** A malformed pattern: the loop throws and the error map keeps what it
    held. *)
Lemma handleSubmit_errors_by_validateField_witness :
  let field :=
    Sample.field "zip" "Zip" text false
      (Some {| min := None; max := None; pattern := Some (lit "(") |}) in
  let c := DynamicForm.set_errors {[ lit "zip" := lit "Invalid format" ]}
             (Sample.component (Sample.form [field] None None) false
                {[ lit "zip" := VString (lit "12345") ]}) in
  let r := DynamicForm.handleSubmit Sample.engine
             (fun _ => DynamicForm.Rejected []) c ∅ in
  DynamicForm.errors (DynamicForm.component r)
  = {[ lit "zip" := lit "Invalid format" ]}
  ∧ DynamicForm.completion r = Abrupt (SyntaxError (lit "(")).
Proof.
  intros field c r.
  assert (E : errors_by_validateField Sample.engine (DynamicForm.config c)
                (DynamicForm.formData c)
              = Abrupt (SyntaxError (lit "("))) by (vm_compute; reflexivity).
  pose proof (handleSubmit_errors_by_validateField Sample.engine
                (fun _ => DynamicForm.Rejected []) c ∅ eq_refl eq_refl) as H.
  cbv zeta in H. rewrite E in H. exact H.
Defined.

(** ** The change and reset handlers of the composer *)

Section HandlerFacts.

Import DynamicForm.

Lemma handleFieldChange_run fieldName v c ls :
  handleFieldChange fieldName v c ls
  = {| completion :=
         Abrupt (TypeError "formState.updateState");
       component :=
         set_form (<[fieldName := v]> (formData c))
           (if truthy (get_error (errors c) fieldName)
            then delete fieldName (errors c)
            else errors c) c;
       localStorage := ls;
       calls := [] |}.
Proof.
  unfold handleFieldChange.
  unfold bind at 1. unfold read at 1.
  cbn [completion component localStorage calls].
  unfold bind at 1. cbn [update completion component localStorage calls].
  unfold bind at 1.
  cbn [formState_updateState throw completion component localStorage calls].
  reflexivity.
Qed.

Lemma handleReset_run c ls :
  handleReset c ls
  = {| completion :=
         Abrupt (TypeError "formState.updateState");
       component := set_form ∅ ∅ c;
       localStorage := delete (storage_key (id (config c))) ls;
       calls := [] |}.
Proof.
  unfold handleReset.
  unfold bind at 1. unfold read at 1.
  cbn [completion component localStorage calls].
  unfold bind at 1. cbn [update completion component localStorage calls].
  unfold bind at 1.
  cbn [localStorage_removeItem completion component localStorage calls].
  unfold bind at 1.
  cbn [formState_updateState throw completion component localStorage calls].
  reflexivity.
Qed.

(** X23.  A field change never saves.  The call takes the value into
    [formData] and drops the error of that field and of no other, then
    throws at [formState.updateState]: [localStorage.setItem] and the
    [change] event are not reached, whatever [auto_save] says.  So after
    any run of changes the storage is as it was. *)
Theorem handleFieldChange_never_saves (fieldName : jsstring) (v : value)
    (changes : list (jsstring * value)) (c : Component)
    (ls : gmap jsstring StorageItem) :
  let r := handleFieldChange fieldName v c ls in
  completion r = Abrupt (TypeError "formState.updateState")
  ∧ calls r = []
  ∧ localStorage r = ls
  ∧ formData (component r) = <[fieldName := v]> (formData c)
  ∧ (errors (component r) !! fieldName = None
     ∨ errors (component r) !! fieldName = Some [])
  ∧ (∀ k, k ≠ fieldName -> errors (component r) !! k = errors c !! k)
  ∧ (handle_changes changes c ls).2 = ls.
Proof.
  intros r. subst r. rewrite handleFieldChange_run. simpl.
  do 4 (split; [reflexivity | ]).
  split; [ | split].
  - unfold get_error, get_value. rewrite lookup_fmap.
    destruct (errors c !! fieldName) as [[ | x e] | ] eqn:He; simpl.
    + right. exact He.
    + left. apply lookup_delete_eq.
    + left. destruct (decide _); [apply lookup_delete_eq | exact He].
  - intros k Hne.
    destruct (truthy _); [ | reflexivity].
    now apply lookup_delete_ne.
  - unfold handle_changes. revert c.
    induction changes as [ | ch changes IH ]; intros c; [reflexivity | ].
    cbn [fold_left]. rewrite handleFieldChange_run.
    cbn [fst snd component localStorage]. apply IH.
Qed.

Variable RegExp_new : jsstring -> option (jsstring -> bool).

(** X24.  [handleReset] empties the values and the errors and erases the
    saved entry, whatever changes came before; and while the configuration
    has a required field, a submit that follows a reset never reaches the
    network. *)
Theorem handleReset_then_submit (c : Component)
    (ls : gmap jsstring StorageItem) (field : FormField) server :
  field ∈ fields (config c) ->
  required field = true ->
  let h := handleReset c ls in
  formData (component h) = ∅
  ∧ errors (component h) = ∅
  ∧ localStorage h !! storage_key (id (config c)) = None
  ∧ ∀ url method body,
      fetch url method body
      ∉ calls (handleSubmit RegExp_new server (component h) (localStorage h)).
Proof.
  intros Hin Hreq h. subst h. rewrite handleReset_run.
  cbn [component localStorage].
  split; [reflexivity | split; [reflexivity | split]].
  - apply lookup_delete_eq.
  - apply handleSubmit_no_fetch.
Qed.

End HandlerFacts.

Lemma handleReset_then_submit_witness :
  let field := Sample.field "name" "Name" text true None in
  let c := Sample.component (Sample.form [field] None None) false
             {[ lit "name" := VString (lit "Jane") ]} in
  let ls : gmap jsstring StorageItem :=
    {[ lit "form_f1_data"
       := Serialized {[ lit "name" := VString (lit "Jane") ]} ]} in
  let h := DynamicForm.handleReset c ls in
  DynamicForm.localStorage h !! lit "form_f1_data" = None
  ∧ ∀ url method body,
      DynamicForm.fetch url method body
      ∉ DynamicForm.calls
          (DynamicForm.handleSubmit Sample.engine
             (fun _ => DynamicForm.Rejected [])
             (DynamicForm.component h) (DynamicForm.localStorage h)).
Proof.
  intros field c ls h.
  destruct (handleReset_then_submit Sample.engine c ls field
              (fun _ => DynamicForm.Rejected [])) as (_ & _ & Hs & Hn).
  - apply list_elem_of_singleton. reflexivity.
  - reflexivity.
  - split; [exact Hs | exact Hn].
Defined.

(** ** More of the submission endpoint *)

Section EndpointFacts.

Import SubmitEndpoint.

(** X25.  [POST] writes only when it answers 200: with any other status the
    tables are as before.  With 200 it adds one analytics row of type
    [submit] carrying the submitted data, and one session row when the
    payload has a [session_id] that is not empty; the table of
    configurations is never written. *)
Theorem POST_writes (now : N) (suffix : jsstring) (request : RequestBody)
    (db : Database) :
  let r := (POST now suffix request db).1 in
  let db' := (POST now suffix request db).2 in
  org_custom_forms db' = org_custom_forms db
  ∧ (status r ≠ 200%nat -> db' = db)
  ∧ (status r = 200%nat ->
     ∃ submission row,
       structurally_valid request = Some submission
       ∧ form_analytics db' = form_analytics db ++ [row]
       ∧ event_type row = lit "submit"
       ∧ event_data row = sub_data submission
       ∧ (string_truthy (session_id submission) = true ->
          ∃ s, form_sessions db' = form_sessions db ++ [s]
               ∧ Some (session_session_id s) = session_id submission)
       ∧ (string_truthy (session_id submission) = false ->
          form_sessions db' = form_sessions db)).
Proof.
  unfold POST, structurally_valid.
  destruct request as [msg | b].
  { unfold handleApiError. destruct (truthy (VString msg)); simpl;
      (split; [reflexivity | split; [reflexivity | discriminate]]). }
  destruct (FormSubmissionSchema_parse b) as [sub | issues | ]; simpl.
  2: { split; [reflexivity | split; [reflexivity | discriminate]]. }
  2: { split; [reflexivity | split; [reflexivity | discriminate]]. }
  destruct (getFormByOrgCode _ _) as [stored | ]; simpl;
    [ | split; [reflexivity | split; [reflexivity | discriminate]]].
  destruct (bool_decide (id stored = form_id sub)); simpl;
    [ | split; [reflexivity | split; [reflexivity | discriminate]]].
  destruct (session_id sub) as [[ | x sid] | ] eqn:Hsid; simpl;
    (split; [reflexivity | split; [congruence | intros _]]);
    exists sub; eexists;
    (split; [reflexivity | ]);
    (split; [reflexivity | split; [reflexivity | split; [reflexivity | ]]]);
    rewrite Hsid; simpl.
  - split; [discriminate | reflexivity].
  - split; [ | discriminate]. intros _. eexists. split; reflexivity.
  - split; [discriminate | reflexivity].
Qed.

Lemma member_without key k v before after :
  k ≠ key ->
  member key (before ++ (k, v) :: after) = member key (before ++ after).
Proof.
  intros Hne. induction before as [ | [k' v'] before IH ]; simpl.
  - rewrite decide_False by assumption. now destruct (member key after).
  - now rewrite IH.
Qed.

(** X26.  On a JSON body whose [data] is the empty object, [POST] answers
    as the specification lists: 400 when the schema refuses the body; else
    404 with "Invalid organization code or form not found" when the code
    resolves to no stored configuration; else 400 with "Form ID mismatch"
    when the identifiers differ; else 200 with [success] and a receipt that
    carries the submission identifier and the stored [org_id] and [id].  A
    body that is not JSON gets 500. *)
Theorem POST_empty_data (now : N) (suffix : jsstring) (db : Database) :
  (∀ o,
     member (lit "data") o = Some (JObject []) ->
     listed_outcome (structurally_valid (Json (JObject o))) db now suffix
       (POST now suffix (Json (JObject o)) db).1)
  ∧ (∀ message, status (POST now suffix (NotJson message) db).1 = 500%nat).
Proof.
  split.
  - intros o Hdata.
    unfold listed_outcome, structurally_valid, POST,
      FormSubmissionSchema_parse.
    rewrite Hdata. cbn [zod_record forallb].
    destruct (zod_string _) as [f | ]; [ | reflexivity].
    destruct (zod_string_length _ _) as [c | ]; [ | reflexivity].
    destruct (zod_string_optional (member (lit "session_id") o))
      as [sid | ]; [ | reflexivity].
    destruct (zod_string_optional (member (lit "user_agent") o))
      as [ua | ]; [ | reflexivity].
    destruct (zod_string_optional (member (lit "referrer") o))
      as [ref | ]; [ | reflexivity].
    cbn [sub_org_code form_id].
    destruct (getFormByOrgCode _ _) as [stored | ];
      [ | split; reflexivity].
    destruct (decide (id stored = f)) as [Heq | Hne].
    + rewrite bool_decide_eq_true_2 by assumption. simpl.
      split; [reflexivity | split; [reflexivity | ]].
      eexists. split; [reflexivity | ]. simpl. auto.
    + rewrite bool_decide_eq_false_2 by assumption. simpl.
      split; reflexivity.
  - intros message. unfold POST, handleApiError.
    now destruct (truthy (VString message)).
Qed.

(** X27.  The schema does not look at members it does not know: a member
    under any other key than the six of the schema changes nothing to what
    [parse] returns. *)
Theorem parse_ignores_unknown (k : jsstring) (v : json)
    (before after : list (jsstring * json)) :
  k ∉ map lit ["form_id"; "org_code"; "data"; "session_id"; "user_agent";
               "referrer"]%string ->
  FormSubmissionSchema_parse (JObject (before ++ (k, v) :: after))
  = FormSubmissionSchema_parse (JObject (before ++ after)).
Proof.
  intros Hk. unfold FormSubmissionSchema_parse.
  rewrite !member_without; [reflexivity | | | | | | ];
    intros ->; apply Hk; cbn [map]; rewrite !elem_of_cons; tauto.
Qed.

Lemma parse_ignores_unknown_witness :
  FormSubmissionSchema_parse
    (JObject [(lit "form_id", JString (lit "f1"));
              (lit "honeypot", JBool true);
              (lit "org_code", JString (lit "ABC123"));
              (lit "data", JObject [])])
  = FormSubmissionSchema_parse
      (JObject [(lit "form_id", JString (lit "f1"));
                (lit "org_code", JString (lit "ABC123"));
                (lit "data", JObject [])]).
Proof.
  apply (parse_ignores_unknown (lit "honeypot") (JBool true)
           [(lit "form_id", JString (lit "f1"))]
           [(lit "org_code", JString (lit "ABC123"));
            (lit "data", JObject [])]).
  intros H. repeat (apply elem_of_cons in H as [H | H]; [discriminate H | ]).
  now apply elem_of_nil in H.
Defined.

End EndpointFacts.

(** The accepted scenario of the specification, with no data: 200 and the
    receipt. *)
Lemma POST_empty_data_witness :
  let payload :=
    [(lit "form_id", JString (lit "f1"));
     (lit "org_code", JString (lit "ABC123"));
     (lit "data", JObject [])] in
  let db :=
    {| SubmitEndpoint.org_custom_forms := [Sample.form [] None None];
       SubmitEndpoint.form_sessions := [];
       SubmitEndpoint.form_analytics := [] |} in
  SubmitEndpoint.status
    (SubmitEndpoint.POST 1700000000000 (lit "k3x9q2m1z")
       (SubmitEndpoint.Json (JObject payload)) db).1 = 200%nat.
Proof.
  intros payload db.
  destruct (POST_empty_data 1700000000000 (lit "k3x9q2m1z") db) as [H _].
  exact (proj1 (H payload eq_refl)).
Defined.

Lemma POST_writes_witness :
  let db := {| SubmitEndpoint.org_custom_forms := [Sample.form [] None None];
               SubmitEndpoint.form_sessions := [];
               SubmitEndpoint.form_analytics := [] |} in
  let request :=
    SubmitEndpoint.Json
      (JObject [(lit "form_id", JString (lit "other"));
                (lit "org_code", JString (lit "ABC123"));
                (lit "data", JObject [])]) in
  (SubmitEndpoint.POST 1 [] request db).2 = db.
Proof.
  intros db request.
  destruct (POST_writes 1 [] request db) as (_ & H & _).
  apply H. vm_compute. discriminate.
Defined.

(** ** The phone rule *)

Lemma truthy_ToString v : truthy v = true -> ToString v ≠ [].
Proof.
  destruct v as [[ | [ | x s] | [ | ]] | member]; simpl; intros H;
    try discriminate H; try discriminate.
  unfold Inherited_toString. destruct (decide _); discriminate.
Qed.

(** X29.  On a phone field, a value that is not empty and that the required
    rule lets through passes exactly when it is made of digits, white space
    and the characters [-], [+], [(] and [)]; otherwise it fails with
    "Please enter a valid phone number". *)
Theorem validateField_phone
    (RegExp_new : jsstring -> option (jsstring -> bool)) field v :
  type field = phone ->
  truthy v = true ->
  required_and_blank field v = false ->
  (validateField RegExp_new field v = Normal Valid
   ↔ Forall (fun c => phone_char c = true) (ToString v))
  ∧ (validateField RegExp_new field v ≠ Normal Valid ->
     validateField RegExp_new field v
     = Normal (Invalid (lit "Please enter a valid phone number"))).
Proof.
  intros Ht Hv Hrb. unfold validateField, return_if.
  rewrite Hrb, Hv, Ht. simpl.
  pose proof (RegExp_test_matches phoneRegex (ToString v)) as Hm.
  unfold phoneRegex in *. rewrite matches_plus_class in Hm.
  destruct (RegExp_test (RPlus (RClass phone_char)) (ToString v)) eqn:Htest;
    simpl.
  - split; [ | congruence]. split; [ | reflexivity].
    intros _. now apply Hm.
  - split; [ | reflexivity]. split; [discriminate | ].
    intros Hall. assert (Hf : false = true); [ | discriminate Hf].
    apply Hm. split; [now apply truthy_ToString | exact Hall].
Qed.

Lemma validateField_phone_witness :
  validateField Sample.engine (Sample.field "tel" "Phone" phone false None)
    (VString (lit "+1 (555) 123-4567")) = Normal Valid.
Proof.
  apply (validateField_phone Sample.engine
           (Sample.field "tel" "Phone" phone false None)
           (VString (lit "+1 (555) 123-4567"))); try reflexivity.
  repeat constructor.
Defined.
